(** * cri_link: the per-link control layer of the CRI readout controller

    A shallow embedding of [src/lib/cri/cri_link.cpp] (namespace [cri]).
    Machine integers are [Z] with their wrap-around written out, the
    [double] arithmetic of the source is Rocq's binary64 [float], C++
    exceptions and failed assertions are the [Throw] case of [result], and
    the object state of a [cri_link] is a record threaded through every
    member function. [get_event_rate] is left out: its arithmetic depends
    on the type of [pkt_clk], which a header outside the sources declares.
    The second part embeds the chunking and the endpoint parsing of
    [src/lib/monitoring/MonitorSinkInflux2.cpp]. *)

From Stdlib Require Import ZArith NArith Lia List String Ascii Bool Floats QArith Qround.
From Stdlib Require Import Decimal DecimalString DecimalN.
Import ListNotations.
Local Open Scope Z_scope.

(** ** Fixed-width integers *)

Module Word.

(** The value an unsigned [w]-bit integer holds after a conversion or an
    arithmetic operation whose mathematical result is [x]. *)
Definition wrap (w x : Z) : Z := x mod 2 ^ w.

Definition uint16_t : Z -> Z := wrap 16.
Definition uint32_t : Z -> Z := wrap 32.
(** [size_t] of the LP64 targets the library is built for. *)
Definition size_t : Z -> Z := wrap 64.

Definition UINT16_MAX : Z := 65535.

End Word.
Import Word.

(** ** double-precision arithmetic and its conversions *)

Module Double.

(** Conversion of an unsigned integer below 2^53 to [double] (exact). *)
Definition of_Z (z : Z) : float := of_uint63 (Uint63.of_Z z).

(** The integral part of a finite [double], rounded toward zero: what a C++
    [static_cast] to an integer type keeps of its operand. *)
Definition trunc (x : float) : Z :=
  match Prim2SF x with
  | S754_finite s m e =>
      let mag := if 0 <=? e then Z.shiftl (Z.pos m) e
                 else Z.shiftr (Z.pos m) (- e) in
      if s then - mag else mag
  | _ => 0
  end.

(** [static_cast<uint16_t>(x)] and [static_cast<uint32_t>(x)]. The
    conversion is defined by C++ only when the truncated value fits the
    target; the embedding is total and keeps the low bits otherwise. *)
Definition to_uint16 (x : float) : Z := uint16_t (trunc x).
Definition to_uint32 (x : float) : Z := uint32_t (trunc x).

End Double.

(** ** Exceptions *)

Inductive exception : Type :=
| Assertion_failed (expr : string)   (* a failed [assert(expr)] *)
| CriException (what : string).      (* [throw CriException(what)] *)

Inductive result (A : Type) : Type :=
| Ok (a : A)
| Throw (e : exception).
Arguments Ok {A} a.
Arguments Throw {A} e.

Definition bind {A B} (r : result A) (k : A -> result B) : result B :=
  match r with
  | Ok a => k a
  | Throw e => Throw e
  end.

Notation "x <- r ;; k" := (bind r (fun x => k))
  (at level 61, r at next level, right associativity).

(** The error classes of the specification, read off the exceptions. *)
Definition ContractViolation (e : exception) : Prop :=
  match e with Assertion_failed _ => True | CriException _ => False end.

Definition NotInitialized : exception :=
  CriException "DMA channel not initialized".

(** ** Register files *)

(** The registers [cri_link.cpp] names. *)
Inductive cri_reg : Type :=
| CRI_REG_PERF_INTERVAL
| CRI_REG_PERF_DMA_STALL
| CRI_REG_PERF_EBUF_STALL
| CRI_REG_PERF_RBUF_STALL
| CRI_REG_PERF_N_EVENTS
| CRI_REG_TESTREG_DMA
| CRI_REG_TESTREG_DATA
| CRI_REG_GTX_DATAPATH_CFG
| CRI_REG_GTX_MC_PGEN_CFG_L
| CRI_REG_GTX_MC_PGEN_CFG_H
| CRI_REG_GTX_MC_PGEN_MC_PENDING.

Definition cri_reg_eqb (a b : cri_reg) : bool :=
  match a, b with
  | CRI_REG_PERF_INTERVAL, CRI_REG_PERF_INTERVAL
  | CRI_REG_PERF_DMA_STALL, CRI_REG_PERF_DMA_STALL
  | CRI_REG_PERF_EBUF_STALL, CRI_REG_PERF_EBUF_STALL
  | CRI_REG_PERF_RBUF_STALL, CRI_REG_PERF_RBUF_STALL
  | CRI_REG_PERF_N_EVENTS, CRI_REG_PERF_N_EVENTS
  | CRI_REG_TESTREG_DMA, CRI_REG_TESTREG_DMA
  | CRI_REG_TESTREG_DATA, CRI_REG_TESTREG_DATA
  | CRI_REG_GTX_DATAPATH_CFG, CRI_REG_GTX_DATAPATH_CFG
  | CRI_REG_GTX_MC_PGEN_CFG_L, CRI_REG_GTX_MC_PGEN_CFG_L
  | CRI_REG_GTX_MC_PGEN_CFG_H, CRI_REG_GTX_MC_PGEN_CFG_H
  | CRI_REG_GTX_MC_PGEN_MC_PENDING, CRI_REG_GTX_MC_PGEN_MC_PENDING => true
  | _, _ => false
  end.

(** The contents of one register window: a 32-bit word per register. *)
Definition regs : Type := cri_reg -> Z.

Definition upd (m : regs) (r : cri_reg) (v : Z) : regs :=
  fun r' => if cri_reg_eqb r r' then v else m r'.

(** The memory-mapped window of the device ([pda::pci_bar]): the contents
    found at each window base address when a view is opened on it. *)
Definition pci_bar : Type := Z -> regs.

Module RegisterFile.

(** Modelled from the spec: [register_file] and [register_file_bar] are
    declared in headers that are not among the sources. Following the
    specification (section 4.1 and the data model), a register file is an
    addressed view rooted at a base address, over 32-bit registers; the two
    views of a link are never aliased, so each holds its own window. *)
Record register_file : Type := {
  rf_base_addr : Z;
  rf_mem : regs
}.

(** Modelled from the spec: the constructor [register_file_bar(bar, base)]
    opens the view rooted at [base]. *)
Definition register_file_bar (bar : pci_bar) (base_addr : Z) : register_file :=
  {| rf_base_addr := base_addr; rf_mem := bar base_addr |}.

(** Modelled from the spec: [get(register) -> uint32]. *)
Definition get_reg (rf : register_file) (r : cri_reg) : Z :=
  uint32_t (rf_mem rf r).

(** Modelled from the spec: [set(register, value)] writes the 32-bit value. *)
Definition set_reg (rf : register_file) (r : cri_reg) (data : Z) : register_file :=
  {| rf_base_addr := rf_base_addr rf; rf_mem := upd (rf_mem rf) r (uint32_t data) |}.

(** Modelled from the spec: [set(register, value, mask)] writes only the
    bits selected by [mask], preserving the others. *)
Definition set_reg_mask (rf : register_file) (r : cri_reg) (data mask : Z)
  : register_file :=
  let reg := get_reg rf r in
  set_reg rf r (Z.lor (Z.land reg (uint32_t (Z.lnot mask))) (Z.land data mask)).

(** Modelled from the spec: [set_bit(register, bit_index, enabled)] sets or
    clears exactly one bit; an invalid bit index is a programming error that
    fails loudly. *)
Definition set_bit (rf : register_file) (r : cri_reg) (pos : Z) (enable : bool)
  : result register_file :=
  if (0 <=? pos) && (pos <? 32) then
    let reg := get_reg rf r in
    if enable then Ok (set_reg rf r (Z.lor reg (Z.shiftl 1 pos)))
    else Ok (set_reg rf r (Z.land reg (Z.lnot (Z.shiftl 1 pos))))
  else Throw (Assertion_failed "bit index").

End RegisterFile.
Import RegisterFile.

(** ** The DMA channel and the link object *)

Definition DMA_TRANSFER_SIZE : Z := 128.

(** Modelled from the spec: class [dma_channel] is declared in a header that
    is not among the sources. The record keeps the constructor's arguments:
    the two ring buffers, each a base address with a log2 size, and the
    transfer granularity. *)
Record dma_channel : Type := {
  dc_data_buffer : Z;
  dc_data_buffer_log_size : Z;
  dc_desc_buffer : Z;
  dc_desc_buffer_log_size : Z;
  dc_dma_transfer_size : Z
}.

(** The data members of [cri_link] that its member functions read or write
    ([m_parent_device] and [m_bar] are only stored). [m_dma_channel] is the
    [std::unique_ptr<dma_channel>]: [None] is the null pointer. *)
Record cri_link : Type := {
  m_link_index : Z;
  m_base_addr : Z;
  m_rfpkt : register_file;
  m_rfgtx : register_file;
  m_dma_channel : option dma_channel;
  m_reg_perf_interval_cached : Z;
  m_reg_gtx_perf_interval_cached : Z
}.

(** [cri_link::link_perf_t] *)
Record link_perf_t : Type := {
  pkt_cycle_cnt : Z;
  dma_stall : Z;
  data_buf_stall : Z;
  desc_buf_stall : Z;
  events : Z;
  gtx_cycle_cnt : Z;
  din_full_gtx : Z
}.

Definition with_rfpkt (f : register_file -> register_file) (l : cri_link) : cri_link :=
  {| m_link_index := m_link_index l;
     m_base_addr := m_base_addr l;
     m_rfpkt := f (m_rfpkt l);
     m_rfgtx := m_rfgtx l;
     m_dma_channel := m_dma_channel l;
     m_reg_perf_interval_cached := m_reg_perf_interval_cached l;
     m_reg_gtx_perf_interval_cached := m_reg_gtx_perf_interval_cached l |}.

Definition with_rfgtx (f : register_file -> register_file) (l : cri_link) : cri_link :=
  {| m_link_index := m_link_index l;
     m_base_addr := m_base_addr l;
     m_rfpkt := m_rfpkt l;
     m_rfgtx := f (m_rfgtx l);
     m_dma_channel := m_dma_channel l;
     m_reg_perf_interval_cached := m_reg_perf_interval_cached l;
     m_reg_gtx_perf_interval_cached := m_reg_gtx_perf_interval_cached l |}.

Definition with_dma_channel (c : option dma_channel) (l : cri_link) : cri_link :=
  {| m_link_index := m_link_index l;
     m_base_addr := m_base_addr l;
     m_rfpkt := m_rfpkt l;
     m_rfgtx := m_rfgtx l;
     m_dma_channel := c;
     m_reg_perf_interval_cached := m_reg_perf_interval_cached l;
     m_reg_gtx_perf_interval_cached := m_reg_gtx_perf_interval_cached l |}.

Definition with_perf_interval_cached (v : Z) (l : cri_link) : cri_link :=
  {| m_link_index := m_link_index l;
     m_base_addr := m_base_addr l;
     m_rfpkt := m_rfpkt l;
     m_rfgtx := m_rfgtx l;
     m_dma_channel := m_dma_channel l;
     m_reg_perf_interval_cached := v;
     m_reg_gtx_perf_interval_cached := m_reg_gtx_perf_interval_cached l |}.

(** What the device does to the registers of the two windows (packet
    domain, transceiver domain) behind the software's back, or while a
    [dma_channel] is constructed or destroyed. *)
Definition hw_effect : Type := regs * regs -> regs * regs.

Definition apply_hw (f : hw_effect) (l : cri_link) : cri_link :=
  let '(pkt, gtx) := f (rf_mem (m_rfpkt l), rf_mem (m_rfgtx l)) in
  with_rfgtx (fun rf => {| rf_base_addr := rf_base_addr rf; rf_mem := gtx |})
    (with_rfpkt (fun rf => {| rf_base_addr := rf_base_addr rf; rf_mem := pkt |}) l).

(** ** Declarations the source takes from headers

    [cri_link.cpp] uses constants, an enumeration and a class whose
    declarations ([cri_link.hpp], the register map, [dma_channel.hpp]) are not
    among the sources. They are parameters of the embedding. *)
Record headers : Type := {
  (** address-select shifts of the register map *)
  CRI_C_CH_ADDR_SEL : Z;
  CRI_C_DMA_ADDR_SEL : Z;
  (** width in bits of the address type [sys_bus_addr] *)
  sys_bus_addr_bits : Z;
  (** packet-domain clock frequency in Hz, as the [double] it promotes to *)
  pkt_clk : float;
  (** the enumerators of [data_source_t], as their integer values *)
  rx_disable : Z;
  rx_user : Z;
  rx_pgen : Z;
  (** what constructing and destroying a [dma_channel] does to the device *)
  dma_channel_ctor : dma_channel -> hw_effect;
  dma_channel_dtor : dma_channel -> hw_effect
}.

Definition sys_bus_addr (h : headers) : Z -> Z := wrap (sys_bus_addr_bits h).

(** ** Member functions of [cri_link] *)

(** [cri_link::cri_link(link_index, dev, bar)] *)
Definition cri_link_ctor (h : headers) (link_index : Z) (bar : pci_bar) : cri_link :=
  let link_index := size_t link_index in
  let base_addr :=
    sys_bus_addr h (size_t ((link_index + 1) * Z.shiftl 1 (CRI_C_CH_ADDR_SEL h))) in
  let rfpkt := register_file_bar bar base_addr in
  let rfgtx :=
    register_file_bar bar
      (sys_bus_addr h (base_addr + Z.shiftl 1 (CRI_C_DMA_ADDR_SEL h))) in
  {| m_link_index := link_index;
     m_base_addr := base_addr;
     m_rfpkt := rfpkt;
     m_rfgtx := rfgtx;
     m_dma_channel := None;
     m_reg_perf_interval_cached := get_reg rfpkt CRI_REG_PERF_INTERVAL;
     m_reg_gtx_perf_interval_cached := 1 |}.

(** Resetting the [unique_ptr]: the channel it held, if any, is destroyed. *)
Definition reset_dma_channel (h : headers) (c : option dma_channel) (l : cri_link)
  : cri_link :=
  match m_dma_channel l with
  | Some old => with_dma_channel c (apply_hw (dma_channel_dtor h old) l)
  | None => with_dma_channel c l
  end.

(** The new channel is constructed first; the assignment then destroys the
    channel the pointer held before. *)
Definition init_dma (h : headers)
    (data_buffer data_buffer_log_size desc_buffer desc_buffer_log_size : Z)
    (l : cri_link) : cri_link :=
  let ch := {| dc_data_buffer := data_buffer;
               dc_data_buffer_log_size := data_buffer_log_size;
               dc_desc_buffer := desc_buffer;
               dc_desc_buffer_log_size := desc_buffer_log_size;
               dc_dma_transfer_size := DMA_TRANSFER_SIZE |} in
  reset_dma_channel h (Some ch) (apply_hw (dma_channel_ctor h ch) l).

Definition deinit_dma (h : headers) (l : cri_link) : cri_link :=
  reset_dma_channel h None l.

(** [cri_link::~cri_link()] *)
Definition cri_link_dtor (h : headers) (l : cri_link) : cri_link :=
  deinit_dma h l.

Definition set_ready_for_data (enable : bool) (l : cri_link) : result cri_link :=
  rf <- set_bit (m_rfgtx l) CRI_REG_GTX_DATAPATH_CFG 2 enable ;;
  Ok (with_rfgtx (fun _ => rf) l).

Definition enable_readout (l : cri_link) : result cri_link :=
  set_ready_for_data true l.

Definition disable_readout (l : cri_link) : result cri_link :=
  set_ready_for_data false l.

Definition dma (l : cri_link) : result dma_channel :=
  match m_dma_channel l with
  | Some ch => Ok ch
  | None => Throw (CriException "DMA channel not initialized")
  end.

Definition set_testreg_dma (data : Z) (l : cri_link) : cri_link :=
  with_rfpkt (fun rf => set_reg rf CRI_REG_TESTREG_DMA data) l.


Definition set_testreg_data (data : Z) (l : cri_link) : cri_link :=
  with_rfgtx (fun rf => set_reg rf CRI_REG_TESTREG_DATA data) l.


(** [data_source_t] is a C++ enumeration: a value of it is its integer. *)
Definition set_data_source (src : Z) (l : cri_link) : cri_link :=
  with_rfgtx (fun rf => set_reg_mask rf CRI_REG_GTX_DATAPATH_CFG src 0x3) l.

Definition data_source (l : cri_link) : Z :=
  let dp_cfg := get_reg (m_rfgtx l) CRI_REG_GTX_DATAPATH_CFG in
  Z.land dp_cfg 0x3.

Definition set_pgen_id (eq_id : Z) (l : cri_link) : cri_link :=
  with_rfgtx (fun rf => set_reg_mask rf CRI_REG_GTX_MC_PGEN_CFG_L (uint16_t eq_id) 0xFFFF) l.

(** [val] is the [double] the [float] argument promotes to: the product
    [static_cast<float>(UINT16_MAX) * (1.0 - val)] is computed in double
    precision, and the cast to [uint16_t] truncates it. *)
Definition pgen_rate_reg_val (val : float) : Z :=
  Double.to_uint16 (Double.of_Z UINT16_MAX * (1 - val))%float.

(** [set_pgen_rate] as built with assertions enabled: a failed [assert]
    ends the call (and the process) with the failed expression. *)
Definition set_pgen_rate (val : float) (l : cri_link) : result cri_link :=
  if negb (0 <=? val)%float then Throw (Assertion_failed "val >= 0")
  else if negb (val <=? 1)%float then Throw (Assertion_failed "val <= 1")
  else
    let reg_val := pgen_rate_reg_val val in
    Ok (with_rfgtx
          (fun rf => set_reg_mask rf CRI_REG_GTX_MC_PGEN_CFG_L
                       (uint32_t (Z.shiftl reg_val 16)) 0xFFFF0000) l).



Definition reset_pgen_mc_pending (l : cri_link) : result cri_link :=
  rf <- set_bit (m_rfgtx l) CRI_REG_GTX_MC_PGEN_CFG_H 0 true ;;
  Ok (with_rfgtx (fun _ => rf) l).

Definition get_pgen_mc_pending (l : cri_link) : Z :=
  get_reg (m_rfgtx l) CRI_REG_GTX_MC_PGEN_MC_PENDING.

(** The [double] literal [1E-3]. *)
Definition milli : float := 0x1.0624dd2f1a9fcp-10%float.

(** The cycle count [interval * (pkt_clk * 1E-3)] as it is stored in the
    [uint32_t] member. *)
Definition interval_cycles (h : headers) (interval : Z) : Z :=
  Double.to_uint32 (Double.of_Z interval * (pkt_clk h * milli))%float.

Definition set_perf_interval (h : headers) (interval : Z) (l : cri_link) : cri_link :=
  let interval := if 17000 <? interval then 17000 else interval in
  let l := with_perf_interval_cached (interval_cycles h interval) l in
  with_rfpkt
    (fun rf => set_reg rf CRI_REG_PERF_INTERVAL (m_reg_perf_interval_cached l)) l.

Definition get_perf_interval_cycles_pkt (l : cri_link) : Z :=
  m_reg_perf_interval_cached l.

Definition get_dma_stall (l : cri_link) : Z :=
  get_reg (m_rfpkt l) CRI_REG_PERF_DMA_STALL.

Definition get_data_buf_stall (l : cri_link) : Z :=
  get_reg (m_rfpkt l) CRI_REG_PERF_EBUF_STALL.

Definition get_desc_buf_stall (l : cri_link) : Z :=
  get_reg (m_rfpkt l) CRI_REG_PERF_RBUF_STALL.

Definition get_event_cnt (l : cri_link) : Z :=
  get_reg (m_rfpkt l) CRI_REG_PERF_N_EVENTS.

Definition get_din_full_gtx (l : cri_link) : Z := 0.

Definition link_perf (l : cri_link) : link_perf_t :=
  {| pkt_cycle_cnt := m_reg_perf_interval_cached l;
     dma_stall := get_dma_stall l;
     data_buf_stall := get_data_buf_stall l;
     desc_buf_stall := get_desc_buf_stall l;
     events := get_event_cnt l;
     gtx_cycle_cnt := m_reg_gtx_perf_interval_cached l;
     din_full_gtx := get_din_full_gtx l |}.

(** ** Observations on the register contents *)

(** The high half of the pattern-generator configuration register. *)
Definition pgen_threshold (l : cri_link) : Z :=
  Z.shiftr (get_reg (m_rfgtx l) CRI_REG_GTX_MC_PGEN_CFG_L) 16.

(** The low half of the same register: the equipment identifier. *)
Definition pgen_id (l : cri_link) : Z :=
  Z.land (get_reg (m_rfgtx l) CRI_REG_GTX_MC_PGEN_CFG_L) 0xFFFF.

(** Bit 2 of the datapath configuration register. *)
Definition ready_for_data (l : cri_link) : bool :=
  Z.testbit (get_reg (m_rfgtx l) CRI_REG_GTX_DATAPATH_CFG) 2.

(** The range the assertions of [set_pgen_rate] accept. A NaN is outside. *)
Definition in_unit_interval (val : float) : bool :=
  ((0 <=? val) && (val <=? 1))%float.

(** The data members written by the constructor only, and the base
    addresses of the two register views. *)
Definition fixed_fields (l l' : cri_link) : Prop :=
  m_link_index l' = m_link_index l
  /\ m_base_addr l' = m_base_addr l
  /\ rf_base_addr (m_rfpkt l') = rf_base_addr (m_rfpkt l)
  /\ rf_base_addr (m_rfgtx l') = rf_base_addr (m_rfgtx l)
  /\ m_reg_gtx_perf_interval_cached l' = m_reg_gtx_perf_interval_cached l.

(** ** A caller of the link

    The owner of a link calls its member functions one after the other and
    keeps the snapshots [link_perf] returned; in between, the device may
    change its registers. A call that throws ends the run. *)
Inductive call : Type :=
| call_init_dma (data_buffer data_buffer_log_size desc_buffer desc_buffer_log_size : Z)
| call_deinit_dma
| call_enable_readout
| call_disable_readout
| call_set_testreg_dma (data : Z)
| call_set_testreg_data (data : Z)
| call_set_data_source (src : Z)
| call_set_pgen_id (eq_id : Z)
| call_set_pgen_rate (val : float)
| call_reset_pgen_mc_pending
| call_set_perf_interval (interval : Z)
| call_link_perf
| device_update (f : hw_effect).

Record caller : Type := {
  link : cri_link;
  snapshots : list link_perf_t   (* oldest first *)
}.

Definition on_link (s : caller) (l : cri_link) : caller :=
  {| link := l; snapshots := snapshots s |}.

Definition step (h : headers) (c : call) (s : caller) : result caller :=
  match c with
  | call_init_dma db dl sb sl => Ok (on_link s (init_dma h db dl sb sl (link s)))
  | call_deinit_dma => Ok (on_link s (deinit_dma h (link s)))
  | call_enable_readout => l <- enable_readout (link s) ;; Ok (on_link s l)
  | call_disable_readout => l <- disable_readout (link s) ;; Ok (on_link s l)
  | call_set_testreg_dma d => Ok (on_link s (set_testreg_dma d (link s)))
  | call_set_testreg_data d => Ok (on_link s (set_testreg_data d (link s)))
  | call_set_data_source src => Ok (on_link s (set_data_source src (link s)))
  | call_set_pgen_id id => Ok (on_link s (set_pgen_id id (link s)))
  | call_set_pgen_rate v => l <- set_pgen_rate v (link s) ;; Ok (on_link s l)
  | call_reset_pgen_mc_pending => l <- reset_pgen_mc_pending (link s) ;; Ok (on_link s l)
  | call_set_perf_interval i => Ok (on_link s (set_perf_interval h i (link s)))
  | call_link_perf =>
      Ok {| link := link s; snapshots := snapshots s ++ [link_perf (link s)] |}
  | device_update f => Ok (on_link s (apply_hw f (link s)))
  end.

Fixpoint run (h : headers) (cs : list call) (s : caller) : caller * option exception :=
  match cs with
  | [] => (s, None)
  | c :: cs' =>
      match step h c s with
      | Ok s' => run h cs' s'
      | Throw e => (s, Some e)
      end
  end.

(** The caller right after it constructed its link. *)
Definition fresh (h : headers) (link_index : Z) (bar : pci_bar) : caller :=
  {| link := cri_link_ctor h link_index bar; snapshots := [] |}.

Definition is_init_dma (c : call) : bool :=
  match c with call_init_dma _ _ _ _ => true | _ => false end.

(** What every snapshot reports for the transceiver domain. *)
Definition gtx_placeholders (p : link_perf_t) : Prop :=
  din_full_gtx p = 0 /\ gtx_cycle_cnt p = 1.

(** ** The specification's reading of the threshold

    The specification words the pattern-generator threshold as
    [round((1 - fraction) * 65535)] over the exact value of the fraction. *)

Definition exact_value (x : float) : Q :=
  match Prim2SF x with
  | S754_finite s m e =>
      let mag := if 0 <=? e then inject_Z (Z.shiftl (Z.pos m) e)
                 else Qmake (Z.pos m) (2 ^ Z.to_pos (- e)) in
      if s then Qopp mag else mag
  | _ => 0%Q
  end.

(** Rounding of a non-negative rational to the nearest integer, halves up. *)
Definition round_half_up (q : Q) : Z := Qfloor (q + (1 # 2))%Q.

Definition spec_pgen_threshold (fraction : Q) : Z :=
  round_half_up ((1 - fraction) * inject_Z 65535)%Q.

(** Rounding of a rational toward zero. *)
Definition Qtrunc (q : Q) : Z :=
  if Qle_bool 0 q then Qfloor q else Qceiling q.

(** ** An instance of the parameters, for concrete evaluations *)

Definition example_headers : headers :=
  {| CRI_C_CH_ADDR_SEL := 16;
     CRI_C_DMA_ADDR_SEL := 15;
     sys_bus_addr_bits := 64;
     pkt_clk := 250000000%float;
     rx_disable := 0;
     rx_user := 1;
     rx_pgen := 2;
     dma_channel_ctor := fun _ hw => hw;
     dma_channel_dtor := fun _ hw => hw |}.

Definition example_bar : pci_bar :=
  fun _ r =>
    match r with
    | CRI_REG_GTX_DATAPATH_CFG => 0x5
    | CRI_REG_GTX_MC_PGEN_CFG_L => 0x1234ABCD
    | CRI_REG_PERF_INTERVAL => 0x1000
    | CRI_REG_PERF_N_EVENTS => 42
    | _ => 0
    end.

Definition example_link : cri_link := cri_link_ctor example_headers 2 example_bar.

(** The scenario of the specification: link 2, pattern generator at rate
    0.5, readout enabled, a measurement interval of one second. *)
Definition scenario_calls : list call :=
  [call_set_data_source 2; call_set_pgen_rate 0.5; call_enable_readout;
   call_set_perf_interval 1000].

Definition scenario_link : cri_link :=
  link (fst (run example_headers scenario_calls (fresh example_headers 2 example_bar))).

(** ** Text output *)

(** An output stream as far as the code below drives it: the characters
    written so far and the fail bit. Field width, fill and locale are the
    defaults of a fresh stream. A stream whose fail bit is set takes no
    further output. *)
Record ostream : Type := {
  os_str : string;
  os_fail : bool
}.

Definition os_put (text : string) (os : ostream) : ostream :=
  if os_fail os then os
  else {| os_str := os_str os ++ text; os_fail := false |}.

Definition os_setstate_failbit (os : ostream) : ostream :=
  {| os_str := os_str os; os_fail := true |}.

(** [operator<<(std::ostream&, cri_link::data_source_t)]: the [switch] over
    the three enumerators and its [default]. *)
Definition operator_out_data_source (h : headers) (os : ostream) (src : Z) : ostream :=
  if src =? rx_disable h then os_put "disable" os
  else if src =? rx_user h then os_put "   user" os
  else if src =? rx_pgen h then os_put "   pgen" os
  else os_setstate_failbit os.

(** The decimal digits a stream writes for a [uint32_t]. *)
Definition decimal (v : Z) : string :=
  NilEmpty.string_of_uint (N.to_uint (Z.to_N v)).

Definition newline : string := String "010" EmptyString.

Definition print_perf_raw (l : cri_link) : string :=
  ("pkt_interval " ++ decimal (get_reg (m_rfpkt l) CRI_REG_PERF_INTERVAL) ++ newline
   ++ "event rate " ++ decimal (get_reg (m_rfpkt l) CRI_REG_PERF_N_EVENTS) ++ newline
   ++ "dma stall " ++ decimal (get_reg (m_rfpkt l) CRI_REG_PERF_DMA_STALL) ++ newline
   ++ "data buf stall " ++ decimal (get_reg (m_rfpkt l) CRI_REG_PERF_EBUF_STALL) ++ newline
   ++ "desc buf stall " ++ decimal (get_reg (m_rfpkt l) CRI_REG_PERF_RBUF_STALL) ++ newline
  )%string.

(** ** Vocabulary of the further properties *)

(** The cycle count the cache holds after the calls [cs], when it held
    [cached] before them: the one of the last [set_perf_interval]. *)
Definition cached_after (h : headers) (cs : list call) (cached : Z) : Z :=
  fold_left
    (fun v c =>
       match c with
       | call_set_perf_interval i => interval_cycles h (Z.min i 17000)
       | _ => v
       end) cs cached.

(** A change of the device registers that leaves the performance-interval
    register of the packet domain as it is. *)
Definition keeps_perf_interval (f : hw_effect) : Prop :=
  forall hw, fst (f hw) CRI_REG_PERF_INTERVAL = fst hw CRI_REG_PERF_INTERVAL.

Definition quiet_call (c : call) : Prop :=
  match c with
  | device_update f => keeps_perf_interval f
  | _ => True
  end.

(** The cache agrees with the register. *)
Definition coherent (l : cri_link) : Prop :=
  m_reg_perf_interval_cached l = get_reg (m_rfpkt l) CRI_REG_PERF_INTERVAL.

(** No character of the string is the line feed. *)
Fixpoint no_newline (s : string) : Prop :=
  match s with
  | EmptyString => True
  | String c s' => c <> "010"%char /\ no_newline s'
  end.

(** [p] holds of the [n] integers from [m] on. *)
Fixpoint all_from (p : Z -> bool) (n : nat) (m : Z) : bool :=
  match n with
  | O => true
  | S n' => p m && all_from p n' (m + 1)
  end.

(** The channel a link owns after the calls [cs], when it owned [c] before
    them: the one of the last [init_dma], unless a [deinit_dma] came later. *)
Definition channel_after (cs : list call) (c : option dma_channel) : option dma_channel :=
  fold_left
    (fun ch call =>
       match call with
       | call_init_dma db dl sb sl =>
           Some {| dc_data_buffer := db; dc_data_buffer_log_size := dl;
                   dc_desc_buffer := sb; dc_desc_buffer_log_size := sl;
                   dc_dma_transfer_size := 128 |}
       | call_deinit_dma => None
       | _ => ch
       end) cs c.

(** * MonitorSinkInflux2: sending metrics in chunks

    [src/lib/monitoring/MonitorSinkInflux2.cpp], [ProcessMetricVec] and the
    bookkeeping of [SendData]. The HTTP exchange itself is an outcome the
    network gives; what [SendData] writes to the error log is left out. *)

Definition kSendChunkSize : Z := 2000000.

(** [std::string::size] *)
Definition size (s : string) : Z := Z.of_nat (String.length s).

(** How one HTTP post ended: an exception was thrown somewhere in the [try]
    block (and caught), or the block ran to its end after [dt] seconds.
    The HTTP status only decides whether an error is logged. *)
Inductive post_outcome : Type :=
| post_threw
| post_completed (dt : float).

(** The outcome of the [n]-th post, of the given body. *)
Definition network : Type := nat -> string -> post_outcome.

(** The statistics members of the sink, and the bodies [SendData] was
    called with so far, oldest first. *)
Record sink : Type := {
  fStatNPoint : Z;
  fStatNTag : Z;
  fStatNField : Z;
  fStatNSend : Z;
  fStatNByte : Z;
  fStatSndTime : float;
  send_calls : list string
}.

Section Influx2.

(** Declared in headers that are not among the sources: the metric type
    with the sizes of its tag and field sets, the line format of the base
    class, and the integer type of the counters (as its wrap-around). *)
Variable Metric : Type.
Variable InfluxLine : Metric -> string.
Variable fTagset_size : Metric -> Z.
Variable fFieldset_size : Metric -> Z.
Variable stat_t : Z -> Z.

Definition SendData (net : network) (msg : string) (k : sink) : sink :=
  match net (List.length (send_calls k)) msg with
  | post_threw =>
      {| fStatNPoint := fStatNPoint k; fStatNTag := fStatNTag k;
         fStatNField := fStatNField k; fStatNSend := fStatNSend k;
         fStatNByte := fStatNByte k; fStatSndTime := fStatSndTime k;
         send_calls := send_calls k ++ [msg] |}
  | post_completed dt =>
      {| fStatNPoint := fStatNPoint k; fStatNTag := fStatNTag k;
         fStatNField := fStatNField k;
         fStatNSend := stat_t (fStatNSend k + 1);
         fStatNByte := stat_t (fStatNByte k + size msg);
         fStatSndTime := (fStatSndTime k + dt)%float;
         send_calls := send_calls k ++ [msg] |}
  end.

Definition count_metric (met : Metric) (k : sink) : sink :=
  {| fStatNPoint := fStatNPoint k;
     fStatNTag := stat_t (fStatNTag k + fTagset_size met);
     fStatNField := stat_t (fStatNField k + fFieldset_size met);
     fStatNSend := fStatNSend k; fStatNByte := fStatNByte k;
     fStatSndTime := fStatSndTime k; send_calls := send_calls k |}.

Definition count_points (n : Z) (k : sink) : sink :=
  {| fStatNPoint := stat_t (fStatNPoint k + n);
     fStatNTag := fStatNTag k; fStatNField := fStatNField k;
     fStatNSend := fStatNSend k; fStatNByte := fStatNByte k;
     fStatSndTime := fStatSndTime k; send_calls := send_calls k |}.

(** The [for] loop of [ProcessMetricVec]: [msg] is the text collected and
    not yet sent. *)
Fixpoint process_loop (net : network) (metvec : list Metric) (msg : string) (k : sink)
  : string * sink :=
  match metvec with
  | [] => (msg, k)
  | met :: rest =>
      let k := count_metric met k in
      let msg := (msg ++ (InfluxLine met ++ newline))%string in
      if kSendChunkSize <? size msg
      then process_loop net rest EmptyString (SendData net msg k)
      else process_loop net rest msg k
  end.

Definition ProcessMetricVec (net : network) (metvec : list Metric) (k : sink) : sink :=
  let k := count_points (Z.of_nat (List.length metvec)) k in
  let '(msg, k) := process_loop net metvec EmptyString k in
  if 0 <? size msg then SendData net msg k else k.

(** The text of a run of metrics: their lines, each ended by a line feed. *)
Fixpoint lines_of (ms : list Metric) : string :=
  match ms with
  | [] => EmptyString
  | met :: rest => ((InfluxLine met ++ newline) ++ lines_of rest)%string
  end.

(** A chunk as [ProcessMetricVec] cuts it: a non-empty run of metrics
    whose text exceeds the chunk size only with its last line. *)
Definition cut_at_limit (g : list Metric) : Prop :=
  g <> [] /\ size (lines_of (removelast g)) <= kSendChunkSize.

End Influx2.

(** ** The endpoint of the sink

    The constructor splits its path with the regular expression [re_path]
    (ECMAScript grammar): four groups separated by colons, anchored at both
    ends of the path. The dot is any character but a line terminator; a
    lazy group first tries to end where it stands and takes one more
    character only when the rest of the pattern fails there. *)

Definition re_path : string := "^(.+?):([0-9]*?):(.*?):(.*)$".

Definition is_dot (c : ascii) : bool :=
  negb ((c =? "010")%char || (c =? "013")%char).

Definition is_digit (c : ascii) : bool :=
  (("0" <=? c) && (c <=? "9"))%char.

Fixpoint all_chars (p : ascii -> bool) (s : string) : bool :=
  match s with
  | EmptyString => true
  | String c rest => p c && all_chars p rest
  end.

(** Group 4, greedy, up to the end of the path. *)
Definition match_token (s : string) : option string :=
  if all_chars is_dot s then Some s else None.

(** Group 3, lazy, then a colon and group 4. *)
Fixpoint match_bucket (s : string) : option (string * string) :=
  match s with
  | EmptyString => None
  | String c rest =>
      match (if (c =? ":")%char then match_token rest else None) with
      | Some t => Some (EmptyString, t)
      | None =>
          if is_dot c then
            match match_bucket rest with
            | Some (b, t) => Some (String c b, t)
            | None => None
            end
          else None
      end
  end.

(** Group 2, lazy digits, then a colon and the groups 3 and 4. *)
Fixpoint match_port (s : string) : option (string * string * string) :=
  match s with
  | EmptyString => None
  | String c rest =>
      match (if (c =? ":")%char then match_bucket rest else None) with
      | Some (b, t) => Some (EmptyString, b, t)
      | None =>
          if is_digit c then
            match match_port rest with
            | Some (p, b, t) => Some (String c p, b, t)
            | None => None
            end
          else None
      end
  end.

(** Group 1 after its first character, lazy, then a colon and the groups
    2 to 4. *)
Fixpoint match_host_more (s : string) : option (string * string * string * string) :=
  match s with
  | EmptyString => None
  | String c rest =>
      match (if (c =? ":")%char then match_port rest else None) with
      | Some (p, b, t) => Some (EmptyString, p, b, t)
      | None =>
          if is_dot c then
            match match_host_more rest with
            | Some (h, p, b, t) => Some (String c h, p, b, t)
            | None => None
            end
          else None
      end
  end.

(** [std::regex_search(path, match, re_path)]: the four groups of the
    match, which can only start at the beginning of the path. *)
Definition regex_search_path (path : string) : option (string * string * string * string) :=
  match path with
  | EmptyString => None
  | String c rest =>
      if is_dot c then
        match match_host_more rest with
        | Some (h, p, b, t) => Some (String c h, p, b, t)
        | None => None
        end
      else None
  end.

Record endpoint : Type := {
  fHost : string;
  fPort : string;
  fBucket : string;
  fToken : string
}.

Inductive constructed : Type :=
| sink_constructed (e : endpoint)
| runtime_error (what : string).

(** [MonitorSinkInflux2::MonitorSinkInflux2(monitor, path)]; [getenv_token]
    is what [::getenv("CBM_INFLUX_TOKEN")] returns, [None] for the null
    pointer. *)
Definition MonitorSinkInflux2_ctor (getenv_token : option string) (path : string)
  : constructed :=
  match regex_search_path path with
  | None =>
      runtime_error
        ("MonitorSinkInflux2::ctor: path not host:[port]:[bucket]:[token] '"
           ++ path ++ "'")
  | Some (host, port, bucket, token) =>
      let port := if size port =? 0 then "8086"%string else port in
      let bucket := if size bucket =? 0 then "cbm"%string else bucket in
      if size token =? 0 then
        match getenv_token with
        | None =>
            runtime_error
              "MonitorSinkInflux2::ctor: no token given and CBM_INFLUX_TOKEN not defined"
        | Some token =>
            sink_constructed
              {| fHost := host; fPort := port; fBucket := bucket; fToken := token |}
        end
      else
        sink_constructed
          {| fHost := host; fPort := port; fBucket := bucket; fToken := token |}
  end.

Definition no_colon (c : ascii) : bool := negb (c =? ":")%char.

(** The number of colons in a string. *)
Fixpoint colons (s : string) : Z :=
  match s with
  | EmptyString => 0
  | String c rest => (if (c =? ":")%char then 1 else 0) + colons rest
  end.

(** A path in the form the pattern describes. *)
Definition well_formed_path (path host port bucket token : string) : Prop :=
  path = (host ++ ":" ++ port ++ ":" ++ bucket ++ ":" ++ token)%string
  /\ host <> EmptyString
  /\ all_chars is_dot host = true
  /\ all_chars is_digit port = true
  /\ all_chars is_dot bucket = true
  /\ all_chars is_dot token = true.

(** ** Facts on fixed-width integers and register windows *)

Lemma wrap_range w x : 0 <= w -> 0 <= wrap w x < 2 ^ w.
Proof. intros Hw. unfold wrap. apply Z.mod_pos_bound. apply Z.pow_pos_nonneg; lia. Qed.

Lemma wrap_small w x : 0 <= x < 2 ^ w -> wrap w x = x.
Proof. intros H. unfold wrap. apply Z.mod_small; assumption. Qed.

Lemma wrap_testbit w x i : 0 <= i < w -> Z.testbit (wrap w x) i = Z.testbit x i.
Proof. intros H. unfold wrap. apply Z.mod_pow2_bits_low. lia. Qed.

Lemma wrap_testbit_high w x i : 0 <= w <= i -> Z.testbit (wrap w x) i = false.
Proof. intros H. unfold wrap. apply Z.mod_pow2_bits_high. lia. Qed.

Lemma wrap_idem w x : 0 <= w -> wrap w (wrap w x) = wrap w x.
Proof. intros Hw. apply wrap_small, wrap_range, Hw. Qed.

Lemma to_uint16_range x : 0 <= Double.to_uint16 x < 2 ^ 16.
Proof. apply wrap_range; lia. Qed.

Lemma to_uint32_range x : 0 <= Double.to_uint32 x < 2 ^ 32.
Proof. apply wrap_range; lia. Qed.

Lemma cri_reg_eqb_refl r : cri_reg_eqb r r = true.
Proof. destruct r; reflexivity. Qed.

Lemma cri_reg_eqb_eq a b : cri_reg_eqb a b = true <-> a = b.
Proof. split; [destruct a, b; simpl; congruence | intros ->; apply cri_reg_eqb_refl]. Qed.

Lemma upd_same m r v : upd m r v r = v.
Proof. unfold upd. now rewrite cri_reg_eqb_refl. Qed.

Lemma upd_other m r v r' : r <> r' -> upd m r v r' = m r'.
Proof.
  intros H. unfold upd. destruct (cri_reg_eqb r r') eqn:E; [|reflexivity].
  apply cri_reg_eqb_eq in E. contradiction.
Qed.

Arguments get_reg : simpl never.
Arguments set_reg : simpl never.
Arguments set_reg_mask : simpl never.
Arguments uint32_t : simpl never.
Arguments uint16_t : simpl never.

(** ** Evaluations on concrete inputs *)

Example pgen_rate_reg_val_one : pgen_rate_reg_val 1 = 0.
Proof. reflexivity. Qed.

Example pgen_rate_reg_val_zero : pgen_rate_reg_val 0 = 65535.
Proof. reflexivity. Qed.

Example pgen_rate_reg_val_half : pgen_rate_reg_val 0.5 = 32767.
Proof. reflexivity. Qed.

Example spec_pgen_threshold_half : spec_pgen_threshold (exact_value 0.5) = 32768.
Proof. reflexivity. Qed.

Example example_link_base : m_base_addr example_link = 0x30000.
Proof. reflexivity. Qed.

Example scenario_runs :
  snd (run example_headers scenario_calls (fresh example_headers 2 example_bar)) = None.
Proof. reflexivity. Qed.

Example scenario_data_source : data_source scenario_link = 2.
Proof. reflexivity. Qed.

Example scenario_pgen_threshold : pgen_threshold scenario_link = 32767.
Proof. reflexivity. Qed.

Example scenario_pgen_id : pgen_id scenario_link = 0xABCD.
Proof. reflexivity. Qed.

Example scenario_ready_for_data : ready_for_data scenario_link = true.
Proof. reflexivity. Qed.

Example scenario_perf_interval :
  get_perf_interval_cycles_pkt scenario_link = 250000000.
Proof. reflexivity. Qed.

Example regex_search_path_plain :
  regex_search_path "localhost:8086:cbm:secret"
  = Some ("localhost", "8086", "cbm", "secret")%string.
Proof. reflexivity. Qed.

Example regex_search_path_defaults :
  MonitorSinkInflux2_ctor (Some "secret"%string) "localhost:::"
  = sink_constructed
      {| fHost := "localhost"; fPort := "8086"; fBucket := "cbm"; fToken := "secret" |}.
Proof. reflexivity. Qed.

Example regex_search_path_no_token :
  MonitorSinkInflux2_ctor None "localhost:::"
  = runtime_error
      "MonitorSinkInflux2::ctor: no token given and CBM_INFLUX_TOKEN not defined".
Proof. reflexivity. Qed.

Example regex_search_path_colon_in_host :
  regex_search_path "a:b:80:x:y" = Some ("a:b", "80", "x", "y")%string.
Proof. reflexivity. Qed.

Example regex_search_path_too_short :
  MonitorSinkInflux2_ctor (Some "secret"%string) "localhost:8086"
  = runtime_error
      "MonitorSinkInflux2::ctor: path not host:[port]:[bucket]:[token] 'localhost:8086'".
Proof. reflexivity. Qed.

Example data_source_label_disable :
  operator_out_data_source example_headers {| os_str := ""; os_fail := false |} 0
  = {| os_str := "disable"; os_fail := false |}.
Proof. reflexivity. Qed.

(** ** Bits of the register writes *)

Lemma testbit_uint32_t x i :
  0 <= i -> Z.testbit (uint32_t x) i = (i <? 32) && Z.testbit x i.
Proof.
  intros Hi. unfold uint32_t. destruct (Z.ltb_spec i 32).
  - rewrite wrap_testbit by lia. reflexivity.
  - rewrite wrap_testbit_high by lia. reflexivity.
Qed.

Lemma testbit_mask_low n i :
  0 <= n -> 0 <= i -> Z.testbit (Z.ones n) i = (i <? n).
Proof. intros Hn Hi. apply Z.testbit_ones_nonneg; assumption. Qed.

Lemma testbit_small n x i :
  0 <= x < 2 ^ n -> 0 <= n <= i -> Z.testbit x i = false.
Proof.
  intros Hx Hi. rewrite <- (wrap_small n x Hx). apply wrap_testbit_high. lia.
Qed.

Lemma get_reg_range rf r : 0 <= get_reg rf r < 2 ^ 32.
Proof. apply wrap_range. lia. Qed.

Lemma get_set_reg_same rf r v : get_reg (set_reg rf r v) r = uint32_t v.
Proof.
  unfold get_reg, set_reg. simpl. rewrite upd_same.
  apply wrap_idem. lia.
Qed.

Lemma get_set_reg_other rf r v r' : r <> r' -> get_reg (set_reg rf r v) r' = get_reg rf r'.
Proof. intros H. unfold get_reg, set_reg. simpl. now rewrite upd_other. Qed.

Lemma rf_base_addr_set_reg rf r v : rf_base_addr (set_reg rf r v) = rf_base_addr rf.
Proof. reflexivity. Qed.

(** A masked write takes the bits under the mask from the data and keeps
    the other bits of the register. *)
Lemma testbit_set_reg_mask rf r data mask i :
  0 <= i ->
  Z.testbit (get_reg (set_reg_mask rf r data mask) r) i =
  (i <? 32) && (if Z.testbit mask i then Z.testbit data i
                else Z.testbit (get_reg rf r) i).
Proof.
  intros Hi. unfold set_reg_mask. rewrite get_set_reg_same.
  rewrite testbit_uint32_t, Z.lor_spec, !Z.land_spec, testbit_uint32_t by assumption.
  rewrite Z.lnot_spec by assumption.
  destruct (i <? 32), (Z.testbit mask i), (Z.testbit data i),
    (Z.testbit (get_reg rf r) i); reflexivity.
Qed.

Lemma get_set_reg_mask_other rf r data mask r' :
  r <> r' -> get_reg (set_reg_mask rf r data mask) r' = get_reg rf r'.
Proof. intros H. unfold set_reg_mask. now apply get_set_reg_other. Qed.

(** [set_bit] at a valid position succeeds and changes that bit only. *)
Lemma set_bit_ok rf r pos enable :
  0 <= pos < 32 ->
  exists rf', set_bit rf r pos enable = Ok rf'
    /\ rf_base_addr rf' = rf_base_addr rf
    /\ (forall r', r <> r' -> get_reg rf' r' = get_reg rf r')
    /\ (forall i, Z.testbit (get_reg rf' r) i =
                  if i =? pos then enable else Z.testbit (get_reg rf r) i).
Proof.
  intros Hpos. unfold set_bit.
  replace ((0 <=? pos) && (pos <? 32)) with true by (symmetry; apply andb_true_iff; split; [apply Z.leb_le | apply Z.ltb_lt]; lia).
  assert (Hone : forall i, 0 <= i -> Z.testbit (Z.shiftl 1 pos) i = (i =? pos)).
  { intros i Hi. rewrite Z.shiftl_spec by assumption.
    destruct (Z.eqb_spec i pos) as [->|Hne].
    - rewrite Z.sub_diag. reflexivity.
    - destruct (Z.lt_ge_cases i pos).
      + apply Z.testbit_neg_r. lia.
      + change 1 with (Z.ones 1). rewrite Z.testbit_ones_nonneg by lia.
        apply Z.ltb_ge. lia. }
  assert (Hhigh : forall i, 0 <= i -> (i =? pos) = true -> (i <? 32) = true).
  { intros i Hi E. apply Z.eqb_eq in E. apply Z.ltb_lt. lia. }
  destruct enable; eexists; (split; [reflexivity|]); (split; [reflexivity|]);
    (split; [intros r' Hr; apply get_set_reg_other; assumption|]); intros i;
    rewrite get_set_reg_same;
    (destruct (Z.lt_ge_cases i 0) as [Hneg|Hi];
     [ rewrite !Z.testbit_neg_r by assumption;
       destruct (Z.eqb_spec i pos); [lia | reflexivity] | ]).
  - rewrite testbit_uint32_t, Z.lor_spec, Hone by assumption.
    destruct (i =? pos) eqn:E.
    + rewrite (Hhigh i Hi E). now rewrite orb_true_r.
    + rewrite orb_false_r. unfold get_reg. rewrite testbit_uint32_t by assumption.
      destruct (i <? 32); reflexivity.
  - rewrite testbit_uint32_t, Z.land_spec, Z.lnot_spec, Hone by assumption.
    destruct (i =? pos) eqn:E.
    + destruct (i <? 32), (Z.testbit (get_reg rf r) i); reflexivity.
    + simpl. rewrite andb_true_r. unfold get_reg. rewrite testbit_uint32_t by assumption.
      destruct (i <? 32); reflexivity.
Qed.

(** ** The datapath configuration register *)

Lemma testbit_3 i : 0 <= i -> Z.testbit 0x3 i = (i <? 2).
Proof. intros Hi. change 0x3 with (Z.ones 2). apply testbit_mask_low; lia. Qed.

Lemma data_source_set_data_source src l :
  0 <= src < 4 -> data_source (set_data_source src l) = src.
Proof.
  intros Hsrc. unfold data_source, set_data_source. simpl.
  apply Z.bits_inj'. intros i Hi.
  rewrite Z.land_spec, testbit_set_reg_mask, testbit_3 by assumption.
  destruct (Z.ltb_spec i 2) as [Hlt|Hge].
  - replace (i <? 32) with true by (symmetry; apply Z.ltb_lt; lia).
    simpl. now rewrite andb_true_r.
  - rewrite andb_false_r. symmetry. apply (testbit_small 2); [exact Hsrc | lia].
Qed.

(** The masked write of the data source leaves every bit from bit 2 on as
    it was. *)
Lemma set_data_source_high_bits src l i :
  2 <= i ->
  Z.testbit (get_reg (m_rfgtx (set_data_source src l)) CRI_REG_GTX_DATAPATH_CFG) i =
  Z.testbit (get_reg (m_rfgtx l) CRI_REG_GTX_DATAPATH_CFG) i.
Proof.
  intros Hi. unfold set_data_source. simpl.
  rewrite testbit_set_reg_mask, testbit_3 by lia.
  replace (i <? 2) with false by (symmetry; apply Z.ltb_ge; lia).
  destruct (Z.ltb_spec i 32); [reflexivity|].
  simpl. symmetry. apply (testbit_small 32); [apply get_reg_range | lia].
Qed.

Lemma set_ready_for_data_spec enable l :
  exists l', set_ready_for_data enable l = Ok l'
    /\ ready_for_data l' = enable
    /\ data_source l' = data_source l
    /\ (forall i, i <> 2 ->
          Z.testbit (get_reg (m_rfgtx l') CRI_REG_GTX_DATAPATH_CFG) i =
          Z.testbit (get_reg (m_rfgtx l) CRI_REG_GTX_DATAPATH_CFG) i)
    /\ (forall r, r <> CRI_REG_GTX_DATAPATH_CFG ->
          get_reg (m_rfgtx l') r = get_reg (m_rfgtx l) r)
    /\ m_rfpkt l' = m_rfpkt l
    /\ m_dma_channel l' = m_dma_channel l
    /\ m_reg_perf_interval_cached l' = m_reg_perf_interval_cached l
    /\ m_reg_gtx_perf_interval_cached l' = m_reg_gtx_perf_interval_cached l.
Proof.
  unfold set_ready_for_data.
  destruct (set_bit_ok (m_rfgtx l) CRI_REG_GTX_DATAPATH_CFG 2 enable)
    as (rf' & Hset & _ & Hother & Hbits); [lia|].
  rewrite Hset. simpl. eexists. split; [reflexivity|]. simpl.
  assert (Hkeep : forall i, i <> 2 ->
            Z.testbit (get_reg rf' CRI_REG_GTX_DATAPATH_CFG) i =
            Z.testbit (get_reg (m_rfgtx l) CRI_REG_GTX_DATAPATH_CFG) i).
  { intros i Hi. rewrite Hbits. destruct (Z.eqb_spec i 2); [contradiction | reflexivity]. }
  repeat split.
  - unfold ready_for_data. cbn [m_rfgtx with_rfgtx]. rewrite Hbits. reflexivity.
  - unfold data_source. cbn [m_rfgtx with_rfgtx]. apply Z.bits_inj'. intros i Hi.
    rewrite !Z.land_spec, testbit_3 by assumption.
    destruct (Z.eq_dec i 2) as [->|Hne]; [now rewrite !andb_false_r|].
    now rewrite Hkeep.
  - exact Hkeep.
  - intros r Hr. apply Hother. congruence.
Qed.

(** C2: for every source among disabled, user and pattern generator,
    [data_source] after [set_data_source source] returns that source, and
    [set_data_source] leaves the ready-for-data bit (bit 2 of the datapath
    configuration register) as it was. The enumerators come from a header
    that is not among the sources; they fit the 2-bit field. *)
Theorem data_source_roundtrip (h : headers) (src : Z) (l : cri_link) :
  0 <= rx_disable h < 4 -> 0 <= rx_user h < 4 -> 0 <= rx_pgen h < 4 ->
  In src [rx_disable h; rx_user h; rx_pgen h] ->
  data_source (set_data_source src l) = src
  /\ ready_for_data (set_data_source src l) = ready_for_data l.
Proof.
  intros Hd Hu Hp Hin. split.
  - apply data_source_set_data_source.
    simpl in Hin. destruct Hin as [<-|[<-|[<-|[]]]]; assumption.
  - unfold ready_for_data. apply set_data_source_high_bits. lia.
Qed.

Lemma data_source_roundtrip_witness :
  data_source (set_data_source (rx_pgen example_headers) example_link) = 2
  /\ ready_for_data (set_data_source (rx_pgen example_headers) example_link) = true.
Proof.
  apply (data_source_roundtrip example_headers (rx_pgen example_headers) example_link);
    simpl; lia.
Defined.

(** C10: [enable_readout] and [disable_readout] change bit 2 of the datapath
    configuration register and nothing else: both succeed in every state,
    every other bit of that register, every other register and every data
    member keep their value, so [data_source] returns the same value before
    and after either call. *)
Theorem readout_changes_only_ready_bit (l : cri_link) :
  exists l_on l_off,
    enable_readout l = Ok l_on /\ disable_readout l = Ok l_off
    /\ ready_for_data l_on = true /\ ready_for_data l_off = false
    /\ data_source l_on = data_source l /\ data_source l_off = data_source l
    /\ (forall l' i, In l' [l_on; l_off] -> i <> 2 ->
          Z.testbit (get_reg (m_rfgtx l') CRI_REG_GTX_DATAPATH_CFG) i =
          Z.testbit (get_reg (m_rfgtx l) CRI_REG_GTX_DATAPATH_CFG) i)
    /\ (forall l' r, In l' [l_on; l_off] -> r <> CRI_REG_GTX_DATAPATH_CFG ->
          get_reg (m_rfgtx l') r = get_reg (m_rfgtx l) r)
    /\ (forall l', In l' [l_on; l_off] ->
          m_rfpkt l' = m_rfpkt l /\ m_dma_channel l' = m_dma_channel l
          /\ m_reg_perf_interval_cached l' = m_reg_perf_interval_cached l).
Proof.
  destruct (set_ready_for_data_spec true l)
    as (l_on & Hon & Hr1 & Hs1 & Hb1 & Ho1 & Hp1 & Hd1 & Hc1 & _).
  destruct (set_ready_for_data_spec false l)
    as (l_off & Hoff & Hr2 & Hs2 & Hb2 & Ho2 & Hp2 & Hd2 & Hc2 & _).
  exists l_on, l_off. unfold enable_readout, disable_readout.
  repeat split; try assumption.
  - intros l' i [<-|[<-|[]]] Hi; auto.
  - intros l' r [<-|[<-|[]]] Hr; auto.
  - destruct H as [<-|[<-|[]]]; assumption.
  - destruct H as [<-|[<-|[]]]; assumption.
  - destruct H as [<-|[<-|[]]]; assumption.
Qed.

(** ** The pattern-generator configuration register *)

Lemma testbit_FFFF i : 0 <= i -> Z.testbit 0xFFFF i = (i <? 16).
Proof. intros Hi. change 0xFFFF with (Z.ones 16). apply testbit_mask_low; lia. Qed.

Lemma testbit_FFFF0000 i : 0 <= i -> Z.testbit 0xFFFF0000 i = (16 <=? i) && (i <? 32).
Proof.
  intros Hi. change 0xFFFF0000 with (Z.shiftl (Z.ones 16) 16).
  rewrite Z.shiftl_spec by assumption.
  destruct (Z.leb_spec 16 i) as [Hge|Hlt].
  - rewrite testbit_mask_low by lia. simpl.
    destruct (Z.ltb_spec (i - 16) 16), (Z.ltb_spec i 32); (reflexivity || lia).
  - apply Z.testbit_neg_r. lia.
Qed.

(** Writing [t << 16] under the mask [0xFFFF0000] puts [t] in the high half
    of the register and keeps its low half. *)
Lemma set_high_half rf r t :
  0 <= t < 2 ^ 16 ->
  Z.shiftr (get_reg (set_reg_mask rf r (uint32_t (Z.shiftl t 16)) 0xFFFF0000) r) 16 = t
  /\ Z.land (get_reg (set_reg_mask rf r (uint32_t (Z.shiftl t 16)) 0xFFFF0000) r) 0xFFFF
     = Z.land (get_reg rf r) 0xFFFF.
Proof.
  intros Ht. split; apply Z.bits_inj'; intros i Hi.
  - rewrite Z.shiftr_spec, testbit_set_reg_mask, testbit_FFFF0000 by lia.
    replace (16 <=? i + 16) with true by (symmetry; apply Z.leb_le; lia).
    destruct (Z.ltb_spec (i + 16) 32) as [Hlt|Hge]; cbn [andb].
    + rewrite testbit_uint32_t, Z.shiftl_spec by lia.
      replace (i + 16 <? 32) with true by (symmetry; apply Z.ltb_lt; lia).
      cbn [andb]. f_equal. lia.
    + symmetry. apply (testbit_small 16); [exact Ht | lia].
  - rewrite !Z.land_spec, testbit_set_reg_mask, testbit_FFFF, testbit_FFFF0000 by lia.
    destruct (Z.ltb_spec i 16) as [Hlt|Hge].
    + replace (16 <=? i) with false by (symmetry; apply Z.leb_gt; lia).
      replace (i <? 32) with true by (symmetry; apply Z.ltb_lt; lia).
      reflexivity.
    + now rewrite !andb_false_r.
Qed.

Lemma set_pgen_rate_in_range val l :
  in_unit_interval val = true ->
  set_pgen_rate val l =
  Ok (with_rfgtx
        (fun rf => set_reg_mask rf CRI_REG_GTX_MC_PGEN_CFG_L
                     (uint32_t (Z.shiftl (pgen_rate_reg_val val) 16)) 0xFFFF0000) l).
Proof.
  unfold in_unit_interval, set_pgen_rate. intros H.
  apply andb_true_iff in H. destruct H as [H0 H1]. now rewrite H0, H1.
Qed.

Lemma set_pgen_rate_out_of_range val l :
  in_unit_interval val = false ->
  exists e, set_pgen_rate val l = Throw e /\ ContractViolation e.
Proof.
  unfold in_unit_interval, set_pgen_rate. intros H.
  destruct (0 <=? val)%float; simpl in *.
  - rewrite H. simpl. eexists. split; [reflexivity | exact I].
  - eexists. split; [reflexivity | exact I].
Qed.

(** C1, as the code has it: for every fraction in [0.0, 1.0],
    [set_pgen_rate] succeeds and writes into the high 16 bits of the
    pattern-generator configuration register the double-precision product
    [65535.0 * (1.0 - fraction)] truncated toward zero (not rounded to the
    nearest integer), leaving the low 16 bits as they were; fraction 1.0
    gives threshold 0, fraction 0.0 gives 65535 and fraction 0.5 gives
    32767. *)
Theorem set_pgen_rate_threshold (val : float) (l : cri_link) :
  (0 <=? val)%float = true -> (val <=? 1)%float = true ->
  (exists l', set_pgen_rate val l = Ok l'
     /\ pgen_threshold l'
        = uint16_t (Double.trunc (Double.of_Z 65535 * (1 - val))%float)
     /\ pgen_id l' = pgen_id l)
  /\ uint16_t (Double.trunc (Double.of_Z 65535 * (1 - 1))%float) = 0
  /\ uint16_t (Double.trunc (Double.of_Z 65535 * (1 - 0))%float) = 65535
  /\ uint16_t (Double.trunc (Double.of_Z 65535 * (1 - 0.5))%float) = 32767.
Proof.
  intros H0 H1. split; [|repeat split; reflexivity].
  eexists. split.
  - apply set_pgen_rate_in_range. unfold in_unit_interval. now rewrite H0, H1.
  - unfold pgen_threshold, pgen_id. cbn [m_rfgtx with_rfgtx].
    apply set_high_half. apply to_uint16_range.
Qed.

Lemma set_pgen_rate_threshold_witness :
  exists l', set_pgen_rate 0.5 example_link = Ok l'
    /\ pgen_threshold l' = 32767
    /\ pgen_id l' = 0xABCD.
Proof.
  destruct (set_pgen_rate_threshold 0.5 example_link) as [(l' & Hok & Ht & Hid) _];
    [reflexivity | reflexivity |].
  exists l'. split; [exact Hok|]. split; [exact Ht | exact Hid].
Defined.

(** C1 as the specification words it fails at fraction 0.5: the register receives
    32767, while [round((1 - 0.5) * 65535)] is 32768. *)
Lemma set_pgen_rate_half_not_rounded :
  exists l', set_pgen_rate 0.5 example_link = Ok l'
    /\ pgen_threshold l' = 32767
    /\ spec_pgen_threshold (exact_value 0.5) = 32768
    /\ pgen_threshold l' <> spec_pgen_threshold (exact_value 0.5).
Proof.
  eexists. split; [reflexivity|].
  split; [reflexivity|]. split; [reflexivity|]. discriminate.
Qed.





(** ** What no call changes *)

Lemma fixed_fields_refl l : fixed_fields l l.
Proof. repeat split. Qed.

Lemma fixed_fields_trans l1 l2 l3 :
  fixed_fields l1 l2 -> fixed_fields l2 l3 -> fixed_fields l1 l3.
Proof.
  unfold fixed_fields. intros (A1 & A2 & A3 & A4 & A5) (B1 & B2 & B3 & B4 & B5).
  repeat split; congruence.
Qed.

Lemma fixed_with_rfgtx f l :
  (forall rf, rf_base_addr (f rf) = rf_base_addr rf) ->
  fixed_fields l (with_rfgtx f l) /\ m_dma_channel (with_rfgtx f l) = m_dma_channel l.
Proof. intros Hf. unfold fixed_fields. cbn. repeat split. apply Hf. Qed.

Lemma fixed_with_rfpkt f l :
  (forall rf, rf_base_addr (f rf) = rf_base_addr rf) ->
  fixed_fields l (with_rfpkt f l) /\ m_dma_channel (with_rfpkt f l) = m_dma_channel l.
Proof. intros Hf. unfold fixed_fields. cbn. repeat split. apply Hf. Qed.

Lemma fixed_apply_hw f l :
  fixed_fields l (apply_hw f l) /\ m_dma_channel (apply_hw f l) = m_dma_channel l.
Proof.
  unfold apply_hw. destruct (f (rf_mem (m_rfpkt l), rf_mem (m_rfgtx l))) as [pkt gtx].
  unfold fixed_fields. cbn. repeat split.
Qed.

Lemma fixed_reset_dma_channel h c l :
  fixed_fields l (reset_dma_channel h c l) /\ m_dma_channel (reset_dma_channel h c l) = c.
Proof.
  unfold reset_dma_channel. destruct (m_dma_channel l) as [old|].
  - destruct (fixed_apply_hw (dma_channel_dtor h old) l) as [(A1 & A2 & A3 & A4 & A5) _].
    unfold fixed_fields. cbn. repeat split; assumption.
  - unfold fixed_fields. cbn. repeat split.
Qed.

Lemma fixed_init_dma h db dl sb sl l :
  fixed_fields l (init_dma h db dl sb sl l).
Proof.
  unfold init_dma. eapply fixed_fields_trans.
  - apply fixed_apply_hw.
  - apply fixed_reset_dma_channel.
Qed.

Lemma fixed_set_perf_interval h i l :
  fixed_fields l (set_perf_interval h i l)
  /\ m_dma_channel (set_perf_interval h i l) = m_dma_channel l.
Proof. unfold set_perf_interval, fixed_fields. cbn. repeat split. Qed.

Lemma set_bit_base rf r pos enable rf' :
  set_bit rf r pos enable = Ok rf' -> rf_base_addr rf' = rf_base_addr rf.
Proof.
  unfold set_bit. destruct ((0 <=? pos) && (pos <? 32)); [|discriminate].
  destruct enable; intros H; injection H as <-; reflexivity.
Qed.

(** The three member functions that can fail write to the transceiver
    view only. *)
Lemma fallible_calls_write_rfgtx l l' :
  (exists b, set_ready_for_data b l = Ok l')
  \/ reset_pgen_mc_pending l = Ok l'
  \/ (exists v, set_pgen_rate v l = Ok l') ->
  fixed_fields l l' /\ m_dma_channel l' = m_dma_channel l.
Proof.
  intros [[b H] | [H | [v H]]].
  - unfold set_ready_for_data in H.
    destruct (set_bit (m_rfgtx l) CRI_REG_GTX_DATAPATH_CFG 2 b) as [rf'|e] eqn:E;
      [|discriminate].
    cbn [bind] in H. injection H as <-.
    generalize (set_bit_base _ _ _ _ _ E). intros Hb.
    unfold fixed_fields. cbn. repeat split; assumption.
  - unfold reset_pgen_mc_pending in H.
    destruct (set_bit (m_rfgtx l) CRI_REG_GTX_MC_PGEN_CFG_H 0 true) as [rf'|e] eqn:E;
      [|discriminate].
    cbn [bind] in H. injection H as <-.
    generalize (set_bit_base _ _ _ _ _ E). intros Hb.
    unfold fixed_fields. cbn. repeat split; assumption.
  - unfold set_pgen_rate in H.
    destruct (negb (0 <=? v)%float); [discriminate|].
    destruct (negb (v <=? 1)%float); [discriminate|].
    injection H as <-. apply fixed_with_rfgtx. intros rf. reflexivity.
Qed.

(** One successful call: the fixed fields stay, the caller's snapshots grow
    by at most the one [link_perf] returns, and only [init_dma] makes a
    channel where there was none. *)
Lemma step_frame h c s s' :
  step h c s = Ok s' ->
  fixed_fields (link s) (link s')
  /\ (snapshots s' = snapshots s
      \/ (link s' = link s /\ snapshots s' = snapshots s ++ [link_perf (link s)]))
  /\ (is_init_dma c = false -> m_dma_channel (link s) = None ->
      m_dma_channel (link s') = None).
Proof.
  assert (Hgtx : forall l l', fixed_fields l l' /\ m_dma_channel l' = m_dma_channel l ->
            fixed_fields l l' /\ (m_dma_channel l = None -> m_dma_channel l' = None)).
  { intros l l' [Hf Hd]. split; [exact Hf | congruence]. }
  destruct c; cbn [step]; intros H.
  - injection H as <-; cbn [link snapshots on_link].
    split; [apply fixed_init_dma|]. split; [left; reflexivity | discriminate].
  - injection H as <-; cbn [link snapshots on_link].
    destruct (fixed_reset_dma_channel h None (link s)) as [Hf Hd].
    split; [exact Hf|]. split; [left; reflexivity | intros _ _; exact Hd].
  - destruct (enable_readout (link s)) as [l'|e] eqn:E; [|discriminate].
    cbn [bind] in H. injection H as <-. cbn [link snapshots on_link].
    destruct (Hgtx (link s) l') as [Hf Hd].
    { apply fallible_calls_write_rfgtx. left. exists true. exact E. }
    split; [exact Hf|]. split; [left; reflexivity | intros _; exact Hd].
  - destruct (disable_readout (link s)) as [l'|e] eqn:E; [|discriminate].
    cbn [bind] in H. injection H as <-. cbn [link snapshots on_link].
    destruct (Hgtx (link s) l') as [Hf Hd].
    { apply fallible_calls_write_rfgtx. left. exists false. exact E. }
    split; [exact Hf|]. split; [left; reflexivity | intros _; exact Hd].
  - injection H as <-; cbn [link snapshots on_link].
    destruct (Hgtx (link s) (set_testreg_dma data (link s))) as [Hf Hd].
    { apply fixed_with_rfpkt. intros rf. reflexivity. }
    split; [exact Hf|]. split; [left; reflexivity | intros _; exact Hd].
  - injection H as <-; cbn [link snapshots on_link].
    destruct (Hgtx (link s) (set_testreg_data data (link s))) as [Hf Hd].
    { apply fixed_with_rfgtx. intros rf. reflexivity. }
    split; [exact Hf|]. split; [left; reflexivity | intros _; exact Hd].
  - injection H as <-; cbn [link snapshots on_link].
    destruct (Hgtx (link s) (set_data_source src (link s))) as [Hf Hd].
    { apply fixed_with_rfgtx. intros rf. reflexivity. }
    split; [exact Hf|]. split; [left; reflexivity | intros _; exact Hd].
  - injection H as <-; cbn [link snapshots on_link].
    destruct (Hgtx (link s) (set_pgen_id eq_id (link s))) as [Hf Hd].
    { apply fixed_with_rfgtx. intros rf. reflexivity. }
    split; [exact Hf|]. split; [left; reflexivity | intros _; exact Hd].
  - destruct (set_pgen_rate val (link s)) as [l'|e] eqn:E; [|discriminate].
    cbn [bind] in H. injection H as <-. cbn [link snapshots on_link].
    destruct (Hgtx (link s) l') as [Hf Hd].
    { apply fallible_calls_write_rfgtx. right. right. exists val. exact E. }
    split; [exact Hf|]. split; [left; reflexivity | intros _; exact Hd].
  - destruct (reset_pgen_mc_pending (link s)) as [l'|e] eqn:E; [|discriminate].
    cbn [bind] in H. injection H as <-. cbn [link snapshots on_link].
    destruct (Hgtx (link s) l') as [Hf Hd].
    { apply fallible_calls_write_rfgtx. right. left. exact E. }
    split; [exact Hf|]. split; [left; reflexivity | intros _; exact Hd].
  - injection H as <-; cbn [link snapshots on_link].
    destruct (Hgtx (link s) (set_perf_interval h interval (link s))) as [Hf Hd].
    { apply fixed_set_perf_interval. }
    split; [exact Hf|]. split; [left; reflexivity | intros _; exact Hd].
  - injection H as <-; cbn [link snapshots on_link].
    split; [apply fixed_fields_refl|]. split; [right; split; reflexivity | auto].
  - injection H as <-; cbn [link snapshots on_link].
    destruct (Hgtx (link s) (apply_hw f (link s))) as [Hf Hd].
    { apply fixed_apply_hw. }
    split; [exact Hf|]. split; [left; reflexivity | intros _; exact Hd].
Qed.

Lemma run_fixed_fields h cs : forall s,
  fixed_fields (link s) (link (fst (run h cs s))).
Proof.
  induction cs as [|c cs IH]; intros s; cbn [run].
  - apply fixed_fields_refl.
  - destruct (step h c s) as [s'|e] eqn:E; [|apply fixed_fields_refl].
    eapply fixed_fields_trans; [|apply IH].
    apply (step_frame h c s s' E).
Qed.

Lemma run_snapshots_prefix h cs : forall s,
  exists newer, snapshots (fst (run h cs s)) = snapshots s ++ newer.
Proof.
  induction cs as [|c cs IH]; intros s; cbn [run].
  - exists []. cbn. now rewrite app_nil_r.
  - destruct (step h c s) as [s'|e] eqn:E.
    + destruct (IH s') as [newer Hn]. rewrite Hn.
      destruct (step_frame h c s s' E) as (_ & [Hs | [_ Hs]] & _); rewrite Hs.
      * exists newer. reflexivity.
      * exists (link_perf (link s) :: newer). now rewrite <- app_assoc.
    + exists []. cbn. now rewrite app_nil_r.
Qed.

Lemma run_no_channel h cs : forall s,
  forallb (fun c => negb (is_init_dma c)) cs = true ->
  m_dma_channel (link s) = None ->
  m_dma_channel (link (fst (run h cs s))) = None.
Proof.
  induction cs as [|c cs IH]; intros s Hcs Hnone; cbn [run].
  - exact Hnone.
  - cbn [forallb] in Hcs. apply andb_true_iff in Hcs. destruct Hcs as [Hc Hcs].
    destruct (step h c s) as [s'|e] eqn:E; [|exact Hnone].
    apply IH; [exact Hcs|].
    apply (step_frame h c s s' E); [|exact Hnone].
    now destruct (is_init_dma c).
Qed.

Lemma run_gtx_placeholders h cs : forall s,
  m_reg_gtx_perf_interval_cached (link s) = 1 ->
  Forall gtx_placeholders (snapshots s) ->
  Forall gtx_placeholders (snapshots (fst (run h cs s))).
Proof.
  induction cs as [|c cs IH]; intros s Hone Hall; cbn [run].
  - exact Hall.
  - destruct (step h c s) as [s'|e] eqn:E; [|exact Hall].
    destruct (step_frame h c s s' E) as ((_ & _ & _ & _ & Hg) & Hs & _).
    apply IH; [congruence|].
    destruct Hs as [Hs | [_ Hs]]; rewrite Hs; [exact Hall|].
    apply Forall_app. split; [exact Hall|].
    constructor; [|constructor]. split; [reflexivity | exact Hone].
Qed.

(** ** The DMA channel *)

Lemma deinit_dma_no_channel h l : m_dma_channel l = None -> deinit_dma h l = l.
Proof.
  intros H. unfold deinit_dma, reset_dma_channel. rewrite H.
  destruct l. cbn in *. subst. reflexivity.
Qed.

Lemma m_dma_channel_deinit_dma h l : m_dma_channel (deinit_dma h l) = None.
Proof. apply fixed_reset_dma_channel. Qed.

Lemma m_dma_channel_init_dma h db dl sb sl l :
  m_dma_channel (init_dma h db dl sb sl l) =
  Some {| dc_data_buffer := db; dc_data_buffer_log_size := dl;
          dc_desc_buffer := sb; dc_desc_buffer_log_size := sl;
          dc_dma_transfer_size := DMA_TRANSFER_SIZE |}.
Proof. apply fixed_reset_dma_channel. Qed.

(** C4: [dma()] fails with the not-initialized error on a link on which
    [init_dma] was never called, whatever else was called since its
    construction; right after [init_dma] it returns the channel the link
    owns, the one made of the arguments of that call with the transfer size
    128; and right after [deinit_dma] it fails with the not-initialized
    error again. *)
Theorem dma_lifecycle (h : headers) (link_index : Z) (bar : pci_bar)
    (cs : list call) (db dl sb sl : Z) (l : cri_link) :
  forallb (fun c => negb (is_init_dma c)) cs = true ->
  dma (link (fst (run h cs (fresh h link_index bar)))) = Throw NotInitialized
  /\ dma (init_dma h db dl sb sl l) =
     Ok {| dc_data_buffer := db; dc_data_buffer_log_size := dl;
           dc_desc_buffer := sb; dc_desc_buffer_log_size := sl;
           dc_dma_transfer_size := 128 |}
  /\ m_dma_channel (init_dma h db dl sb sl l) =
     Some {| dc_data_buffer := db; dc_data_buffer_log_size := dl;
             dc_desc_buffer := sb; dc_desc_buffer_log_size := sl;
             dc_dma_transfer_size := 128 |}
  /\ dma (deinit_dma h l) = Throw NotInitialized
  /\ dma (deinit_dma h (init_dma h db dl sb sl l)) = Throw NotInitialized.
Proof.
  intros Hcs. repeat split.
  - unfold dma. rewrite (run_no_channel h cs (fresh h link_index bar) Hcs); reflexivity.
  - unfold dma. rewrite m_dma_channel_init_dma. reflexivity.
  - apply m_dma_channel_init_dma.
  - unfold dma. now rewrite m_dma_channel_deinit_dma.
  - unfold dma. now rewrite m_dma_channel_deinit_dma.
Qed.

Lemma dma_lifecycle_witness :
  dma (link (fst (run example_headers scenario_calls (fresh example_headers 2 example_bar))))
  = Throw NotInitialized
  /\ dma (init_dma example_headers 4096 20 8192 12 example_link) =
     Ok {| dc_data_buffer := 4096; dc_data_buffer_log_size := 20;
           dc_desc_buffer := 8192; dc_desc_buffer_log_size := 12;
           dc_dma_transfer_size := 128 |}
  /\ dma (deinit_dma example_headers
            (init_dma example_headers 4096 20 8192 12 example_link))
     = Throw NotInitialized.
Proof.
  destruct (dma_lifecycle example_headers 2 example_bar scenario_calls
              4096 20 8192 12 example_link) as (H1 & H2 & _ & _ & H5);
    [reflexivity|].
  split; [exact H1|]. split; [exact H2 | exact H5].
Defined.

(** C9: [deinit_dma] cannot fail; when the link has no channel it leaves
    the link exactly as it was, and from any state a second [deinit_dma]
    right after a first one changes nothing more. *)
Theorem deinit_dma_idempotent (h : headers) (l : cri_link) :
  (m_dma_channel l = None -> deinit_dma h l = l)
  /\ m_dma_channel (deinit_dma h l) = None
  /\ deinit_dma h (deinit_dma h l) = deinit_dma h l.
Proof.
  split; [apply deinit_dma_no_channel|].
  split; [apply m_dma_channel_deinit_dma|].
  apply deinit_dma_no_channel, m_dma_channel_deinit_dma.
Qed.

Lemma deinit_dma_idempotent_witness :
  deinit_dma example_headers example_link = example_link
  /\ deinit_dma example_headers
       (deinit_dma example_headers (init_dma example_headers 4096 20 8192 12 example_link))
     = deinit_dma example_headers (init_dma example_headers 4096 20 8192 12 example_link).
Proof.
  split.
  - exact (proj1 (deinit_dma_idempotent example_headers example_link) eq_refl).
  - exact (proj2 (proj2 (deinit_dma_idempotent example_headers
                           (init_dma example_headers 4096 20 8192 12 example_link)))).
Defined.

(** ** Performance counters *)

Lemma clamp_min interval :
  (if 17000 <? interval then 17000 else interval) = Z.min interval 17000.
Proof. destruct (Z.ltb_spec 17000 interval); lia. Qed.

Lemma Zpos_pow2_to_pos e : e < 0 -> Z.pos (2 ^ Z.to_pos (- e)) = 2 ^ (- e).
Proof.
  intros He. rewrite Pos2Z.inj_pow. rewrite Z2Pos.id by lia. reflexivity.
Qed.

(** The cast of a [double] to an integer keeps the integral part of its
    exact value. *)
Lemma trunc_exact_value x : Double.trunc x = Qtrunc (exact_value x).
Proof.
  unfold Double.trunc, exact_value.
  destruct (Prim2SF x) as [s|s| |s m e]; try reflexivity.
  destruct (Z.leb_spec 0 e) as [He|He].
  - assert (Hpos : 0 < Z.shiftl (Z.pos m) e).
    { rewrite Z.shiftl_mul_pow2 by lia. apply Z.mul_pos_pos; [lia|].
      apply Z.pow_pos_nonneg; lia. }
    destruct s; unfold Qtrunc, Qle_bool, Qceiling, Qfloor, Qopp, inject_Z; cbn [Qnum Qden].
    + destruct (Z.leb_spec (0 * 1) (- Z.shiftl (Z.pos m) e * 1)); [lia|].
      rewrite Z.opp_involutive, Z.div_1_r. reflexivity.
    + destruct (Z.leb_spec (0 * 1) (Z.shiftl (Z.pos m) e * 1)); [|lia].
      now rewrite Z.div_1_r.
  - rewrite Z.shiftr_div_pow2 by lia.
    destruct s; unfold Qtrunc, Qle_bool, Qceiling, Qfloor, Qopp; cbn [Qnum Qden].
    + destruct (Z.leb_spec (0 * Z.pos (2 ^ Z.to_pos (- e))) (- Z.pos m * 1)); [lia|].
      rewrite Z.opp_involutive, Zpos_pow2_to_pos by lia. reflexivity.
    + destruct (Z.leb_spec (0 * Z.pos (2 ^ Z.to_pos (- e))) (Z.pos m * 1)); [|lia].
      rewrite Zpos_pow2_to_pos by lia. reflexivity.
Qed.

Lemma all_from_spec p n : forall m k,
  all_from p n m = true -> m <= k < m + Z.of_nat n -> p k = true.
Proof.
  induction n as [|n IH]; intros m k H Hk; [lia|].
  cbn [all_from] in H. apply andb_true_iff in H. destruct H as [Hm Hrest].
  destruct (Z.eq_dec k m) as [->|Hne]; [exact Hm|].
  apply (IH (m + 1)); [exact Hrest | lia].
Qed.

(** One millisecond is exactly 250000 cycles for each of the intervals the
    clamp lets through, checked on all of them. *)
Lemma cycles_250MHz_checked :
  all_from
    (fun m =>
       Double.to_uint32 (Double.of_Z m * (250000000 * milli))%float =? 250000 * m)
    (Z.to_nat 17001) 0 = true.
Proof. vm_compute. reflexivity. Qed.

Lemma cycles_250MHz m :
  0 <= m <= 17000 ->
  Double.to_uint32 (Double.of_Z m * (250000000 * milli))%float = 250000 * m.
Proof.
  intros Hm. apply Z.eqb_eq.
  apply (all_from_spec _ _ 0 m cycles_250MHz_checked). lia.
Qed.

(** The conversion of each of these intervals to [double] is exact. *)
Lemma of_Z_exact_checked :
  all_from (fun m => Qeq_bool (exact_value (Double.of_Z m)) (inject_Z m))
    (Z.to_nat 17001) 0 = true.
Proof. vm_compute. reflexivity. Qed.

(** C5: for every interval, [set_perf_interval] uses the interval clamped
    to at most 17000 ms and converts it to packet-domain cycles as
    [interval * (pkt_clk * 1E-3)]: the double-precision product of the
    interval with [pkt_clk] times the double nearest to one thousandth,
    its exact value rounded toward zero and stored in 32 bits. It caches
    that cycle count and writes the same value to the performance-interval
    register, so [get_perf_interval_cycles_pkt] returns the value written; a
    call with an interval above 17000 does exactly what a call with 17000
    does. At a packet clock of 250 MHz the count is exactly 250000 cycles
    for each millisecond of the clamped interval. *)
Theorem set_perf_interval_clamps (h : headers) (interval : Z) (l : cri_link) :
  get_perf_interval_cycles_pkt (set_perf_interval h interval l)
  = Double.to_uint32 (Double.of_Z (Z.min interval 17000) * (pkt_clk h * milli))%float
  /\ get_perf_interval_cycles_pkt (set_perf_interval h interval l)
     = Qtrunc (exact_value
                 (Double.of_Z (Z.min interval 17000) * (pkt_clk h * milli))%float)
       mod 2 ^ 32
  /\ ((1 # 1000) <= exact_value milli)%Q
  /\ (exact_value milli < (1 # 1000) + (1 # 10000000000000000000))%Q
  /\ (forall m, 0 <= m <= 17000 -> (exact_value (Double.of_Z m) == inject_Z m)%Q)
  /\ (pkt_clk h = 250000000%float -> 0 <= interval ->
      get_perf_interval_cycles_pkt (set_perf_interval h interval l)
      = 250000 * Z.min interval 17000)
  /\ get_reg (m_rfpkt (set_perf_interval h interval l)) CRI_REG_PERF_INTERVAL
     = get_perf_interval_cycles_pkt (set_perf_interval h interval l)
  /\ set_perf_interval h interval l = set_perf_interval h (Z.min interval 17000) l
  /\ set_perf_interval h (Z.max interval 17001) l = set_perf_interval h 17000 l.
Proof.
  assert (Hmin : forall i, set_perf_interval h i l = set_perf_interval h (Z.min i 17000) l).
  { intros i. unfold set_perf_interval. rewrite !clamp_min.
    replace (Z.min (Z.min i 17000) 17000) with (Z.min i 17000) by lia.
    reflexivity. }
  assert (Hc : get_perf_interval_cycles_pkt (set_perf_interval h interval l)
               = Double.to_uint32
                   (Double.of_Z (Z.min interval 17000) * (pkt_clk h * milli))%float).
  { unfold set_perf_interval, get_perf_interval_cycles_pkt. cbn.
    rewrite clamp_min. reflexivity. }
  split; [exact Hc|].
  split; [rewrite Hc; unfold Double.to_uint32, uint32_t, wrap;
          now rewrite trunc_exact_value|].
  split; [vm_compute; discriminate|].
  split; [reflexivity|].
  split; [intros m Hm; apply Qeq_bool_eq;
          apply (all_from_spec _ _ 0 m of_Z_exact_checked); lia|].
  split; [intros Hclk Hi; rewrite Hc, Hclk; apply cycles_250MHz; lia|].
  split.
  - unfold set_perf_interval, get_perf_interval_cycles_pkt.
    cbn [m_rfpkt with_rfpkt with_perf_interval_cached m_reg_perf_interval_cached].
    rewrite get_set_reg_same. apply wrap_small. apply to_uint32_range.
  - split; [apply Hmin|]. rewrite Hmin. f_equal. lia.
Qed.

Lemma set_perf_interval_clamps_witness :
  get_perf_interval_cycles_pkt (set_perf_interval example_headers 20000 example_link)
  = 4250000000
  /\ get_reg (m_rfpkt (set_perf_interval example_headers 20000 example_link))
       CRI_REG_PERF_INTERVAL
     = 4250000000.
Proof.
  destruct (set_perf_interval_clamps example_headers 20000 example_link)
    as (_ & _ & _ & _ & _ & H250 & Hreg & _).
  rewrite Hreg. split; apply H250; (reflexivity || lia).
Defined.

(** A snapshot taken before [set_perf_interval] keeps the interval it was
    taken with, while the next one reports the new interval. *)
Example snapshots_before_and_after :
  map pkt_cycle_cnt
    (snapshots (fst (run example_headers
                       [call_link_perf; call_set_perf_interval 1000; call_link_perf]
                       (fresh example_headers 2 example_bar))))
  = [0x1000; 250000000].
Proof. reflexivity. Qed.

(** C3, as the code has it: [get_din_full_gtx] returns 0 in every state,
    and in every state a link reaches after its construction the snapshot
    of [link_perf] reports [din_full_gtx = 0] and [gtx_cycle_cnt = 1], the
    placeholder the constructor stores and no member function changes; the
    same holds of every snapshot the caller was returned on the way. *)
Theorem gtx_counters_stubbed (h : headers) (link_index : Z) (bar : pci_bar)
    (cs : list call) (l : cri_link) :
  get_din_full_gtx l = 0
  /\ din_full_gtx (link_perf l) = 0
  /\ gtx_cycle_cnt (link_perf (link (fst (run h cs (fresh h link_index bar))))) = 1
  /\ Forall (fun p => din_full_gtx p = 0 /\ gtx_cycle_cnt p = 1)
       (snapshots (fst (run h cs (fresh h link_index bar)))).
Proof.
  split; [reflexivity|]. split; [reflexivity|]. split.
  - cbn [link_perf gtx_cycle_cnt].
    destruct (run_fixed_fields h cs (fresh h link_index bar)) as (_ & _ & _ & _ & Hg).
    rewrite Hg. reflexivity.
  - apply (run_gtx_placeholders h cs (fresh h link_index bar)); [reflexivity|].
    constructor.
Qed.

(** C3 as the specification words it fails for [gtx_cycle_cnt]: a freshly constructed
    link reports 1, not 0. *)
Lemma gtx_cycle_cnt_is_one :
  gtx_cycle_cnt (link_perf example_link) = 1
  /\ gtx_cycle_cnt (link_perf example_link) <> 0.
Proof. split; [reflexivity | discriminate]. Qed.

(** ** Base addresses *)

Lemma cri_link_ctor_bases h link_index bar :
  0 <= CRI_C_CH_ADDR_SEL h < 31 -> 0 <= CRI_C_DMA_ADDR_SEL h < 31 ->
  0 < sys_bus_addr_bits h <= 64 ->
  0 <= link_index ->
  (link_index + 1) * 2 ^ CRI_C_CH_ADDR_SEL h + 2 ^ CRI_C_DMA_ADDR_SEL h
    < 2 ^ sys_bus_addr_bits h ->
  m_base_addr (cri_link_ctor h link_index bar)
    = (link_index + 1) * 2 ^ CRI_C_CH_ADDR_SEL h
  /\ rf_base_addr (m_rfpkt (cri_link_ctor h link_index bar))
    = (link_index + 1) * 2 ^ CRI_C_CH_ADDR_SEL h
  /\ rf_base_addr (m_rfgtx (cri_link_ctor h link_index bar))
    = (link_index + 1) * 2 ^ CRI_C_CH_ADDR_SEL h + 2 ^ CRI_C_DMA_ADDR_SEL h.
Proof.
  intros Hch Hdma Hbits Hidx Hfit.
  assert (Hpch : 1 <= 2 ^ CRI_C_CH_ADDR_SEL h)
    by (pose proof (Z.pow_pos_nonneg 2 (CRI_C_CH_ADDR_SEL h)); lia).
  assert (Hpdma : 1 <= 2 ^ CRI_C_DMA_ADDR_SEL h)
    by (pose proof (Z.pow_pos_nonneg 2 (CRI_C_DMA_ADDR_SEL h)); lia).
  assert (Hw : 2 ^ sys_bus_addr_bits h <= 2 ^ 64)
    by (apply Z.pow_le_mono_r; lia).
  assert (Hprod : link_index + 1 <= (link_index + 1) * 2 ^ CRI_C_CH_ADDR_SEL h) by nia.
  assert (Hbase : sys_bus_addr h
            (size_t ((size_t link_index + 1) * Z.shiftl 1 (CRI_C_CH_ADDR_SEL h)))
          = (link_index + 1) * 2 ^ CRI_C_CH_ADDR_SEL h).
  { rewrite Z.shiftl_1_l. unfold size_t, sys_bus_addr.
    rewrite (wrap_small 64 link_index) by lia.
    rewrite (wrap_small 64) by lia. apply wrap_small. lia. }
  unfold cri_link_ctor. cbn [m_base_addr m_rfpkt m_rfgtx register_file_bar rf_base_addr].
  rewrite Hbase. repeat split.
  rewrite Z.shiftl_1_l. unfold sys_bus_addr. apply wrap_small. lia.
Qed.

(** At the largest [size_t] the sum [m_link_index + 1] wraps to zero, and
    so does the base address, whatever the address-select shifts are. *)
Lemma cri_link_ctor_size_max h bar :
  m_base_addr (cri_link_ctor h (2 ^ 64 - 1) bar) = 0.
Proof.
  unfold cri_link_ctor. cbn [m_base_addr].
  change (size_t (2 ^ 64 - 1) + 1) with (2 ^ 64).
  unfold size_t, sys_bus_addr, wrap.
  rewrite Z.mul_comm, Z_mod_mult. apply Zmod_0_l.
Qed.

(** C8, as the code has it: for every link index for which
    [(link_index + 1) * 2^CRI_C_CH_ADDR_SEL + 2^CRI_C_DMA_ADDR_SEL] fits the
    address type (so that neither the [size_t] arithmetic nor the address
    wraps around), the packet-domain base address is
    [(link_index + 1) * 2^CRI_C_CH_ADDR_SEL], the packet-domain view is
    rooted there and the transceiver-domain view at that base plus
    [2^CRI_C_DMA_ADDR_SEL]; no call made after the construction changes
    either base. *)
Theorem link_base_addresses (h : headers) (link_index : Z) (bar : pci_bar)
    (cs : list call) :
  0 <= CRI_C_CH_ADDR_SEL h < 31 -> 0 <= CRI_C_DMA_ADDR_SEL h < 31 ->
  0 < sys_bus_addr_bits h <= 64 ->
  0 <= link_index ->
  (link_index + 1) * 2 ^ CRI_C_CH_ADDR_SEL h + 2 ^ CRI_C_DMA_ADDR_SEL h
    < 2 ^ sys_bus_addr_bits h ->
  m_base_addr (link (fst (run h cs (fresh h link_index bar))))
    = (link_index + 1) * 2 ^ CRI_C_CH_ADDR_SEL h
  /\ rf_base_addr (m_rfpkt (link (fst (run h cs (fresh h link_index bar)))))
    = m_base_addr (link (fst (run h cs (fresh h link_index bar))))
  /\ rf_base_addr (m_rfgtx (link (fst (run h cs (fresh h link_index bar)))))
    = m_base_addr (link (fst (run h cs (fresh h link_index bar))))
      + 2 ^ CRI_C_DMA_ADDR_SEL h.
Proof.
  intros Hch Hdma Hbits Hidx Hfit.
  destruct (cri_link_ctor_bases h link_index bar Hch Hdma Hbits Hidx Hfit)
    as (Hb & Hp & Hg).
  destruct (run_fixed_fields h cs (fresh h link_index bar)) as (_ & Fb & Fp & Fg & _).
  cbn [fresh link] in Fb, Fp, Fg.
  rewrite Fb, Fp, Fg, Hb, Hp, Hg. repeat split.
Qed.

Lemma link_base_addresses_witness :
  m_base_addr scenario_link = 0x30000
  /\ rf_base_addr (m_rfpkt scenario_link) = m_base_addr scenario_link
  /\ rf_base_addr (m_rfgtx scenario_link) = m_base_addr scenario_link + 0x8000.
Proof.
  apply (link_base_addresses example_headers 2 example_bar scenario_calls);
    cbn; lia.
Defined.

(** C8 as the specification words it fails at the largest link index a [size_t]
    holds: the base address is 0 there, not [2^64 * 2^CRI_C_CH_ADDR_SEL]. *)
Lemma base_addr_wraps_at_size_max :
  m_base_addr (cri_link_ctor example_headers (2 ^ 64 - 1) example_bar) = 0
  /\ m_base_addr (cri_link_ctor example_headers (2 ^ 64 - 1) example_bar)
     <> (2 ^ 64 - 1 + 1) * 2 ^ CRI_C_CH_ADDR_SEL example_headers.
Proof.
  rewrite cri_link_ctor_size_max. split; [reflexivity | discriminate].
Qed.

(** * Further properties of the link *)

(** ** Test registers *)

Lemma link_perf_with_rfgtx f l : link_perf (with_rfgtx f l) = link_perf l.
Proof. reflexivity. Qed.


(** ** Data source: range and truncation *)

Lemma land_3_mod x : Z.land x 0x3 = x mod 4.
Proof. change 0x3 with (Z.ones 2). rewrite Z.land_ones by lia. reflexivity. Qed.

(** X2: [data_source] always returns a value of the 2-bit field, 0 to 3, and
    [set_data_source] stores exactly the low two bits of its argument: what
    is read back is the argument modulo 4, whatever the argument, and no
    other bit of the datapath configuration register changes. *)
Theorem data_source_two_bits (src : Z) (l : cri_link) :
  0 <= data_source l < 4
  /\ data_source (set_data_source src l) = src mod 4
  /\ (forall i, 2 <= i ->
        Z.testbit (get_reg (m_rfgtx (set_data_source src l)) CRI_REG_GTX_DATAPATH_CFG) i
        = Z.testbit (get_reg (m_rfgtx l) CRI_REG_GTX_DATAPATH_CFG) i).
Proof.
  split; [|split].
  - unfold data_source. rewrite land_3_mod. apply Z.mod_pos_bound. lia.
  - rewrite <- land_3_mod.
    unfold data_source, set_data_source. cbn [m_rfgtx with_rfgtx].
    apply Z.bits_inj'. intros i Hi.
    rewrite !Z.land_spec, testbit_set_reg_mask, testbit_3 by assumption.
    destruct (Z.ltb_spec i 2) as [Hlt|Hge].
    + replace (i <? 32) with true by (symmetry; apply Z.ltb_lt; lia).
      cbn [andb]. now rewrite andb_true_r.
    + now rewrite !andb_false_r.
  - intros i Hi. apply set_data_source_high_bits. exact Hi.
Qed.

(** ** Pattern generator: identifier, rate and pending latch *)

(** Writing under the mask [0xFFFF] puts the 16-bit value in the low half
    of the register and keeps its high half. *)
Lemma set_low_half rf r d :
  Z.land (get_reg (set_reg_mask rf r (uint16_t d) 0xFFFF) r) 0xFFFF = uint16_t d
  /\ Z.shiftr (get_reg (set_reg_mask rf r (uint16_t d) 0xFFFF) r) 16
     = Z.shiftr (get_reg rf r) 16.
Proof.
  split; apply Z.bits_inj'; intros i Hi.
  - rewrite Z.land_spec, testbit_set_reg_mask, testbit_FFFF by lia.
    destruct (Z.ltb_spec i 16) as [Hlt|Hge].
    + replace (i <? 32) with true by (symmetry; apply Z.ltb_lt; lia).
      cbn [andb]. now rewrite andb_true_r.
    + rewrite andb_false_r. symmetry. unfold uint16_t. apply wrap_testbit_high. lia.
  - rewrite !Z.shiftr_spec, testbit_set_reg_mask, testbit_FFFF by lia.
    replace (i + 16 <? 16) with false by (symmetry; apply Z.ltb_ge; lia).
    destruct (Z.ltb_spec (i + 16) 32) as [Hlt|Hge]; [reflexivity|].
    cbn [andb]. symmetry. apply (testbit_small 32); [apply get_reg_range | lia].
Qed.

(** X3: [set_pgen_id] stores the 16-bit equipment identifier in the low half of
    the pattern-generator configuration register; the threshold in the high
    half, every other register of the transceiver domain, the packet domain
    and the data members keep their values. *)
Theorem set_pgen_id_low_half (eq_id : Z) (l : cri_link) :
  pgen_id (set_pgen_id eq_id l) = eq_id mod 2 ^ 16
  /\ pgen_threshold (set_pgen_id eq_id l) = pgen_threshold l
  /\ (forall r, r <> CRI_REG_GTX_MC_PGEN_CFG_L ->
        get_reg (m_rfgtx (set_pgen_id eq_id l)) r = get_reg (m_rfgtx l) r)
  /\ m_rfpkt (set_pgen_id eq_id l) = m_rfpkt l
  /\ m_dma_channel (set_pgen_id eq_id l) = m_dma_channel l
  /\ link_perf (set_pgen_id eq_id l) = link_perf l.
Proof.
  destruct (set_low_half (m_rfgtx l) CRI_REG_GTX_MC_PGEN_CFG_L eq_id) as [Hlo Hhi].
  repeat match goal with |- _ /\ _ => split end; try reflexivity.
  - exact Hlo.
  - exact Hhi.
  - intros r Hr. unfold set_pgen_id. cbn [m_rfgtx with_rfgtx].
    apply get_set_reg_mask_other. congruence.
Qed.

(** Two masked writes to one register commute when their masks share no
    bit. *)
Lemma set_reg_mask_commute rf r d1 m1 d2 m2 :
  Z.land m1 m2 = 0 ->
  get_reg (set_reg_mask (set_reg_mask rf r d1 m1) r d2 m2) r
  = get_reg (set_reg_mask (set_reg_mask rf r d2 m2) r d1 m1) r.
Proof.
  intros Hdisj. apply Z.bits_inj'. intros i Hi.
  rewrite !testbit_set_reg_mask by assumption.
  assert (Hm : Z.testbit m1 i && Z.testbit m2 i = false).
  { rewrite <- Z.land_spec, Hdisj. apply Z.bits_0. }
  destruct (i <? 32), (Z.testbit m1 i), (Z.testbit m2 i); cbn [andb] in *;
    (reflexivity || discriminate).
Qed.

Lemma set_reg_mask_twice_other rf r d1 m1 d2 m2 r' :
  r <> r' ->
  get_reg (set_reg_mask (set_reg_mask rf r d1 m1) r d2 m2) r' = get_reg rf r'.
Proof. intros H. now rewrite !get_set_reg_mask_other. Qed.

(** X4: the identifier and the rate of the pattern generator are set
    independently: for a rate in range, [set_pgen_id] and [set_pgen_rate]
    give the same register contents in either order, with the identifier in
    the low half and the threshold in the high half. *)
Theorem pgen_id_and_rate_commute (val : float) (eq_id : Z) (l : cri_link) :
  in_unit_interval val = true ->
  exists l1 l2,
    set_pgen_rate val (set_pgen_id eq_id l) = Ok l1
    /\ set_pgen_rate val l = Ok l2
    /\ (forall r, get_reg (m_rfgtx l1) r = get_reg (m_rfgtx (set_pgen_id eq_id l2)) r)
    /\ m_rfpkt l1 = m_rfpkt (set_pgen_id eq_id l2)
    /\ pgen_id l1 = eq_id mod 2 ^ 16
    /\ pgen_threshold l1 = pgen_rate_reg_val val.
Proof.
  intros Hval. do 2 eexists.
  split; [apply set_pgen_rate_in_range; exact Hval|].
  split; [apply set_pgen_rate_in_range; exact Hval|].
  split; [|split; [reflexivity|]].
  - intros r. unfold set_pgen_id. cbn [m_rfgtx with_rfgtx].
    destruct (cri_reg_eqb CRI_REG_GTX_MC_PGEN_CFG_L r) eqn:E.
    + apply cri_reg_eqb_eq in E. subst r. apply set_reg_mask_commute. reflexivity.
    + assert (Hr : CRI_REG_GTX_MC_PGEN_CFG_L <> r).
      { intros Heq. subst r. rewrite cri_reg_eqb_refl in E. discriminate. }
      now rewrite !set_reg_mask_twice_other.
  - unfold pgen_id, pgen_threshold. cbn [m_rfgtx with_rfgtx].
    destruct (set_high_half
                (m_rfgtx (set_pgen_id eq_id l)) CRI_REG_GTX_MC_PGEN_CFG_L
                (pgen_rate_reg_val val) (to_uint16_range _)) as [Hhi Hlo].
    split.
    + rewrite Hlo. apply (set_low_half (m_rfgtx l) CRI_REG_GTX_MC_PGEN_CFG_L eq_id).
    + exact Hhi.
Qed.

Lemma pgen_id_and_rate_commute_witness :
  exists l1 l2,
    set_pgen_rate 0.5 (set_pgen_id 0xBEEF example_link) = Ok l1
    /\ set_pgen_rate 0.5 example_link = Ok l2
    /\ get_reg (m_rfgtx l1) CRI_REG_GTX_MC_PGEN_CFG_L = 0x7FFFBEEF
    /\ get_reg (m_rfgtx (set_pgen_id 0xBEEF l2)) CRI_REG_GTX_MC_PGEN_CFG_L = 0x7FFFBEEF.
Proof.
  destruct (pgen_id_and_rate_commute 0.5 0xBEEF example_link eq_refl)
    as (l1 & l2 & H1 & H2 & Hregs & _).
  exists l1, l2. split; [exact H1|]. split; [exact H2|].
  assert (E1 : get_reg (m_rfgtx l1) CRI_REG_GTX_MC_PGEN_CFG_L = 0x7FFFBEEF).
  { assert (E : Ok l1 = Ok (with_rfgtx
                  (fun rf => set_reg_mask rf CRI_REG_GTX_MC_PGEN_CFG_L
                               (uint32_t (Z.shiftl (pgen_rate_reg_val 0.5) 16)) 0xFFFF0000)
                  (set_pgen_id 0xBEEF example_link)))
      by (rewrite <- H1; reflexivity).
    injection E as ->. reflexivity. }
  split; [exact E1 | rewrite <- Hregs; exact E1].
Defined.

(** ** The cached measurement interval *)

(** What one successful call does to the link: five calls are written out;
    every other call writes to the transceiver-domain view only. *)
Lemma step_shape h c s s' :
  step h c s = Ok s' ->
  match c with
  | call_init_dma db dl sb sl => link s' = init_dma h db dl sb sl (link s)
  | call_deinit_dma => link s' = deinit_dma h (link s)
  | call_set_testreg_dma d => link s' = set_testreg_dma d (link s)
  | call_set_perf_interval i => link s' = set_perf_interval h i (link s)
  | call_link_perf => link s' = link s
  | device_update f => link s' = apply_hw f (link s)
  | _ => exists f, link s' = with_rfgtx f (link s)
  end.
Proof.
  destruct c; cbn [step]; intros H;
    try (injection H as <-; cbn [link on_link]; first [reflexivity | eexists; reflexivity]).
  destruct (in_unit_interval val) eqn:Hv.
  - rewrite (set_pgen_rate_in_range val (link s) Hv) in H.
    cbn [bind] in H. injection H as <-. cbn [link on_link]. eexists. reflexivity.
  - destruct (set_pgen_rate_out_of_range val (link s) Hv) as (e & He & _).
    rewrite He in H. discriminate.
Qed.

Lemma cached_apply_hw f l :
  m_reg_perf_interval_cached (apply_hw f l) = m_reg_perf_interval_cached l.
Proof.
  unfold apply_hw. destruct (f (rf_mem (m_rfpkt l), rf_mem (m_rfgtx l))). reflexivity.
Qed.

Lemma cached_reset_dma_channel h c l :
  m_reg_perf_interval_cached (reset_dma_channel h c l) = m_reg_perf_interval_cached l.
Proof.
  unfold reset_dma_channel. destruct (m_dma_channel l); cbn; [apply cached_apply_hw | reflexivity].
Qed.

Lemma cached_set_perf_interval h i l :
  m_reg_perf_interval_cached (set_perf_interval h i l) = interval_cycles h (Z.min i 17000).
Proof. unfold set_perf_interval. cbn. now rewrite clamp_min. Qed.

(** Only [set_perf_interval] writes the cache. *)
Lemma step_cached h c s s' :
  step h c s = Ok s' ->
  m_reg_perf_interval_cached (link s') =
  match c with
  | call_set_perf_interval i => interval_cycles h (Z.min i 17000)
  | _ => m_reg_perf_interval_cached (link s)
  end.
Proof.
  intros H. apply step_shape in H.
  destruct c;
    lazymatch type of H with
    | ex _ => destruct H as [g Hg]; rewrite Hg; reflexivity
    | _ => rewrite H
    end.
  - unfold init_dma. now rewrite cached_reset_dma_channel, cached_apply_hw.
  - apply cached_reset_dma_channel.
  - reflexivity.
  - apply cached_set_perf_interval.
  - reflexivity.
  - apply cached_apply_hw.
Qed.

Lemma run_cached h cs : forall s,
  snd (run h cs s) = None ->
  m_reg_perf_interval_cached (link (fst (run h cs s)))
  = cached_after h cs (m_reg_perf_interval_cached (link s)).
Proof.
  induction cs as [|c cs IH]; intros s Hok; cbn [run cached_after fold_left] in *.
  - reflexivity.
  - destruct (step h c s) as [s'|e] eqn:E; [|discriminate].
    rewrite (IH s' Hok). unfold cached_after. f_equal.
    rewrite (step_cached h c s s' E). destruct c; reflexivity.
Qed.

(** X6: the interval a link reports is the one of the last [set_perf_interval]:
    after any calls that all succeeded, [get_perf_interval_cycles_pkt] and the
    [pkt_cycle_cnt] of [link_perf] are the cycle count of the last
    [set_perf_interval] among them (its interval clamped to 17000 ms), or,
    if there was none, the register value the constructor read; no other
    call and nothing the device does to its registers changes them. *)
Theorem perf_interval_last_set (h : headers) (link_index : Z) (bar : pci_bar)
    (cs : list call) :
  snd (run h cs (fresh h link_index bar)) = None ->
  get_perf_interval_cycles_pkt (link (fst (run h cs (fresh h link_index bar))))
  = cached_after h cs
      (get_reg (m_rfpkt (cri_link_ctor h link_index bar)) CRI_REG_PERF_INTERVAL)
  /\ pkt_cycle_cnt (link_perf (link (fst (run h cs (fresh h link_index bar)))))
     = cached_after h cs
         (get_reg (m_rfpkt (cri_link_ctor h link_index bar)) CRI_REG_PERF_INTERVAL).
Proof.
  intros Hok. pose proof (run_cached h cs (fresh h link_index bar) Hok) as H.
  split; exact H.
Qed.

Lemma perf_interval_last_set_witness :
  get_perf_interval_cycles_pkt
    (link (fst (run example_headers
                  [call_set_perf_interval 20000;
                   device_update (fun hw => (fun _ => 7, snd hw));
                   call_enable_readout]
                  (fresh example_headers 2 example_bar))))
  = 4250000000.
Proof.
  apply (perf_interval_last_set example_headers 2 example_bar
           [call_set_perf_interval 20000;
            device_update (fun hw => (fun _ => 7, snd hw));
            call_enable_readout]).
  reflexivity.
Defined.

Lemma coherent_apply_hw f l :
  keeps_perf_interval f -> coherent l -> coherent (apply_hw f l).
Proof.
  unfold coherent. intros Hf Hl. rewrite cached_apply_hw, Hl.
  unfold apply_hw. specialize (Hf (rf_mem (m_rfpkt l), rf_mem (m_rfgtx l))).
  destruct (f (rf_mem (m_rfpkt l), rf_mem (m_rfgtx l))) as [pkt gtx].
  cbn [m_rfpkt with_rfpkt with_rfgtx]. unfold get_reg. cbn [rf_mem fst] in *.
  now rewrite Hf.
Qed.

Lemma coherent_reset_dma_channel h c l :
  (forall ch, keeps_perf_interval (dma_channel_dtor h ch)) ->
  coherent l -> coherent (reset_dma_channel h c l).
Proof.
  intros Hd Hl. unfold reset_dma_channel. destruct (m_dma_channel l) as [old|].
  - apply (coherent_apply_hw _ _ (Hd old)) in Hl. exact Hl.
  - exact Hl.
Qed.

Lemma coherent_set_perf_interval h i l : coherent (set_perf_interval h i l).
Proof.
  unfold coherent, set_perf_interval.
  cbn [m_rfpkt with_rfpkt with_perf_interval_cached m_reg_perf_interval_cached].
  rewrite get_set_reg_same. symmetry. apply wrap_small, to_uint32_range.
Qed.

Lemma step_coherent h c s s' :
  (forall ch, keeps_perf_interval (dma_channel_ctor h ch)) ->
  (forall ch, keeps_perf_interval (dma_channel_dtor h ch)) ->
  quiet_call c ->
  step h c s = Ok s' -> coherent (link s) -> coherent (link s').
Proof.
  intros Hc Hd Hq H Hl. apply step_shape in H.
  destruct c;
    lazymatch type of H with
    | ex _ => destruct H as [g Hg]; rewrite Hg; exact Hl
    | _ => rewrite H
    end.
  - unfold init_dma. apply coherent_reset_dma_channel; [exact Hd|].
    apply coherent_apply_hw; [apply Hc | exact Hl].
  - apply coherent_reset_dma_channel; assumption.
  - unfold coherent, set_testreg_dma in *. cbn [m_rfpkt with_rfpkt m_reg_perf_interval_cached].
    rewrite get_set_reg_other by discriminate. exact Hl.
  - apply coherent_set_perf_interval.
  - exact Hl.
  - apply coherent_apply_hw; [exact Hq | exact Hl].
Qed.

(** X7: the cached interval stays in step with the hardware register: as long
    as neither the device nor the construction and destruction of a DMA
    channel change the performance-interval register, after any calls the
    cached cycle count equals the content of that register. *)
Theorem perf_interval_cache_in_sync (h : headers) (link_index : Z) (bar : pci_bar)
    (cs : list call) :
  (forall ch, keeps_perf_interval (dma_channel_ctor h ch)) ->
  (forall ch, keeps_perf_interval (dma_channel_dtor h ch)) ->
  Forall quiet_call cs ->
  get_perf_interval_cycles_pkt (link (fst (run h cs (fresh h link_index bar))))
  = get_reg (m_rfpkt (link (fst (run h cs (fresh h link_index bar)))))
      CRI_REG_PERF_INTERVAL.
Proof.
  intros Hc Hd Hq.
  assert (Hrun : forall s, coherent (link s) -> coherent (link (fst (run h cs s)))).
  { induction Hq as [|c cs Hqc Hqcs IH]; intros s Hs; cbn [run]; [exact Hs|].
    destruct (step h c s) as [s'|e] eqn:E; [|exact Hs].
    apply IH. exact (step_coherent h c s s' Hc Hd Hqc E Hs). }
  apply Hrun. reflexivity.
Qed.

Lemma perf_interval_cache_in_sync_witness :
  get_perf_interval_cycles_pkt scenario_link
  = get_reg (m_rfpkt scenario_link) CRI_REG_PERF_INTERVAL.
Proof.
  apply (perf_interval_cache_in_sync example_headers 2 example_bar scenario_calls).
  - intros ch hw. reflexivity.
  - intros ch hw. reflexivity.
  - repeat constructor.
Defined.

(** When the device does overwrite the register, the cache keeps the value
    that was set: [link_perf] still reports it while [print_perf_raw] shows
    the register. *)
Example stale_cache_after_device_update :
  pkt_cycle_cnt
    (link_perf (link (fst (run example_headers
       [call_set_perf_interval 1; device_update (fun hw => (fun _ => 7, snd hw))]
       (fresh example_headers 2 example_bar))))) = 250000
  /\ print_perf_raw
       (link (fst (run example_headers
          [call_set_perf_interval 1; device_update (fun hw => (fun _ => 7, snd hw))]
          (fresh example_headers 2 example_bar))))
     = ("pkt_interval 7" ++ newline ++ "event rate 7" ++ newline
        ++ "dma stall 7" ++ newline ++ "data buf stall 7" ++ newline
        ++ "desc buf stall 7" ++ newline)%string.
Proof. split; reflexivity. Qed.

(** ** Text output *)

Lemma append_inj_l (p a b : string) : (p ++ a = p ++ b)%string -> a = b.
Proof.
  induction p as [|c p IH]; cbn [append]; intros H; [exact H|].
  injection H as H. apply IH, H.
Qed.



Lemma decimal_inj a b : 0 <= a -> 0 <= b -> decimal a = decimal b -> a = b.
Proof.
  unfold decimal. intros Ha Hb H.
  assert (E : Some (N.to_uint (Z.to_N a)) = Some (N.to_uint (Z.to_N b))).
  { rewrite <- !NilEmpty.usu. now rewrite H. }
  injection E as E. apply Unsigned.to_uint_inj in E. lia.
Qed.

Lemma no_newline_string_of_uint d : no_newline (NilEmpty.string_of_uint d).
Proof. induction d; cbn; (exact I || (split; [discriminate | assumption])). Qed.

Lemma no_newline_decimal v : no_newline (decimal v).
Proof. apply no_newline_string_of_uint. Qed.

(** A line ends at the first line feed. *)
Lemma first_line_inj s1 : forall s2 r1 r2,
  no_newline s1 -> no_newline s2 ->
  (s1 ++ newline ++ r1 = s2 ++ newline ++ r2)%string ->
  s1 = s2 /\ r1 = r2.
Proof.
  induction s1 as [|c s1 IH]; intros [|c2 s2] r1 r2 H1 H2 E; cbn in *.
  - injection E as E. split; [reflexivity | exact E].
  - injection E as Ec _. destruct H2 as [Hc _]. congruence.
  - injection E as Ec _. destruct H1 as [Hc _]. congruence.
  - injection E as Ec E. destruct H1 as [_ H1], H2 as [_ H2].
    destruct (IH s2 r1 r2 H1 H2 E) as [-> ->]. subst. split; reflexivity.
Qed.

(** X10: the raw dump is unambiguous: it has one line for each of the five
    packet-domain registers it reads (interval, event count, DMA stall, data
    buffer stall, descriptor buffer stall), and two links print the same
    text only if these five registers hold the same values. *)
Theorem print_perf_raw_determines_registers (l l' : cri_link) :
  print_perf_raw l = print_perf_raw l' <->
  (get_reg (m_rfpkt l) CRI_REG_PERF_INTERVAL = get_reg (m_rfpkt l') CRI_REG_PERF_INTERVAL
   /\ get_reg (m_rfpkt l) CRI_REG_PERF_N_EVENTS = get_reg (m_rfpkt l') CRI_REG_PERF_N_EVENTS
   /\ get_reg (m_rfpkt l) CRI_REG_PERF_DMA_STALL = get_reg (m_rfpkt l') CRI_REG_PERF_DMA_STALL
   /\ get_reg (m_rfpkt l) CRI_REG_PERF_EBUF_STALL = get_reg (m_rfpkt l') CRI_REG_PERF_EBUF_STALL
   /\ get_reg (m_rfpkt l) CRI_REG_PERF_RBUF_STALL = get_reg (m_rfpkt l') CRI_REG_PERF_RBUF_STALL).
Proof.
  unfold print_perf_raw. split.
  - intros H.
    repeat match type of H with
      | (?p ++ decimal ?a ++ newline ++ ?r = ?p ++ decimal ?b ++ newline ++ ?r')%string =>
          apply append_inj_l in H;
          apply first_line_inj in H; [|apply no_newline_decimal ..];
          let Hd := fresh "Hd" in
          destruct H as [Hd H];
          apply decimal_inj in Hd; [|apply get_reg_range ..]
      end.
    apply append_inj_l in H.
    apply (first_line_inj _ _ EmptyString EmptyString) in H;
      [|apply no_newline_decimal ..].
    destruct H as [Hd4 _]. apply decimal_inj in Hd4; [|apply get_reg_range ..].
    repeat split; assumption.
  - intros (-> & -> & -> & -> & ->). reflexivity.
Qed.

(** ** The interval at a 250 MHz packet clock *)

(** X11: with a packet clock of 250 MHz the conversion is exact and cannot
    overflow: for every interval in milliseconds, [set_perf_interval] caches
    and writes exactly 250000 cycles per millisecond of the clamped interval,
    at most 4250000000, which fits the 32-bit register; without the clamp an
    interval of 17180 ms would already exceed it. *)
Theorem perf_interval_exact_at_250MHz (h : headers) (interval : Z) (l : cri_link) :
  pkt_clk h = 250000000%float ->
  0 <= interval ->
  get_perf_interval_cycles_pkt (set_perf_interval h interval l)
  = 250000 * Z.min interval 17000
  /\ get_reg (m_rfpkt (set_perf_interval h interval l)) CRI_REG_PERF_INTERVAL
     = 250000 * Z.min interval 17000
  /\ 250000 * Z.min interval 17000 <= 4250000000 < 2 ^ 32
  /\ 2 ^ 32 <= 250000 * 17180.
Proof.
  intros Hclk Hi.
  assert (Hc : get_perf_interval_cycles_pkt (set_perf_interval h interval l)
               = 250000 * Z.min interval 17000).
  { unfold get_perf_interval_cycles_pkt. rewrite cached_set_perf_interval.
    unfold interval_cycles. rewrite Hclk. apply cycles_250MHz. lia. }
  split; [exact Hc|]. split; [|lia].
  rewrite <- Hc. symmetry. apply coherent_set_perf_interval.
Qed.

Lemma perf_interval_exact_at_250MHz_witness :
  get_perf_interval_cycles_pkt (set_perf_interval example_headers 60000 example_link)
  = 4250000000.
Proof.
  apply (perf_interval_exact_at_250MHz example_headers 60000 example_link);
    [reflexivity | lia].
Defined.

(** ** The channel a link owns *)

Lemma dma_channel_apply_hw f l : m_dma_channel (apply_hw f l) = m_dma_channel l.
Proof. apply fixed_apply_hw. Qed.

Lemma step_dma_channel h c s s' :
  step h c s = Ok s' ->
  m_dma_channel (link s') = channel_after [c] (m_dma_channel (link s)).
Proof.
  intros H. apply step_shape in H.
  destruct c;
    lazymatch type of H with
    | ex _ => destruct H as [g Hg]; rewrite Hg; reflexivity
    | _ => rewrite H
    end; cbn [channel_after fold_left].
  - apply m_dma_channel_init_dma.
  - apply m_dma_channel_deinit_dma.
  - reflexivity.
  - reflexivity.
  - reflexivity.
  - apply dma_channel_apply_hw.
Qed.

Lemma run_dma_channel h cs : forall s,
  snd (run h cs s) = None ->
  m_dma_channel (link (fst (run h cs s))) = channel_after cs (m_dma_channel (link s)).
Proof.
  induction cs as [|c cs IH]; intros s Hok; cbn [run] in *; [reflexivity|].
  destruct (step h c s) as [s'|e] eqn:E; [|discriminate].
  rewrite (IH s' Hok), (step_dma_channel h c s s' E). reflexivity.
Qed.

(** X12: a link owns at most one channel, the latest: after any calls that all
    succeeded, [dma()] returns the channel made by the last [init_dma] (its
    four arguments and the transfer size 128) if no [deinit_dma] was called
    after it, and throws the not-initialized error otherwise; a second
    [init_dma] replaces the channel of the first. *)
Theorem dma_returns_latest_channel (h : headers) (link_index : Z) (bar : pci_bar)
    (cs : list call) :
  snd (run h cs (fresh h link_index bar)) = None ->
  dma (link (fst (run h cs (fresh h link_index bar))))
  = match channel_after cs None with
    | Some ch => Ok ch
    | None => Throw NotInitialized
    end.
Proof.
  intros Hok. unfold dma.
  rewrite (run_dma_channel h cs (fresh h link_index bar) Hok). reflexivity.
Qed.

Lemma dma_returns_latest_channel_witness :
  dma (link (fst (run example_headers
                    [call_init_dma 4096 20 8192 12; call_enable_readout;
                     call_init_dma 65536 22 131072 14]
                    (fresh example_headers 2 example_bar))))
  = Ok {| dc_data_buffer := 65536; dc_data_buffer_log_size := 22;
          dc_desc_buffer := 131072; dc_desc_buffer_log_size := 14;
          dc_dma_transfer_size := 128 |}.
Proof.
  apply (dma_returns_latest_channel example_headers 2 example_bar
           [call_init_dma 4096 20 8192 12; call_enable_readout;
            call_init_dma 65536 22 131072 14]).
  reflexivity.
Defined.

(** * Properties of the InfluxDB sink *)

Lemma string_append_nil_r (s : string) : (s ++ "")%string = s.
Proof. induction s as [|c s IH]; cbn; [reflexivity | now rewrite IH]. Qed.

Lemma string_append_assoc (a b c : string) : ((a ++ b) ++ c = a ++ (b ++ c))%string.
Proof. induction a as [|x a IH]; cbn; [reflexivity | now rewrite IH]. Qed.

Lemma size_append (a b : string) : size (a ++ b) = size a + size b.
Proof.
  unfold size. induction a as [|x a IH]; cbn [append String.length]; [lia|].
  rewrite !Nat2Z.inj_succ. lia.
Qed.

Lemma size_nonneg (s : string) : 0 <= size s.
Proof. unfold size. lia. Qed.

Lemma Forall_removelast {A} (P : A -> Prop) (l : list A) :
  Forall P l -> Forall P (removelast l).
Proof.
  induction 1 as [|x l Hx Hl IH]; cbn; [constructor|].
  destruct l; [constructor | constructor; assumption].
Qed.

Section Influx2Facts.

Variable Metric : Type.
Variable InfluxLine : Metric -> string.
Variable fTagset_size : Metric -> Z.
Variable fFieldset_size : Metric -> Z.
Variable stat_t : Z -> Z.

Local Abbreviation lines := (lines_of Metric InfluxLine).
Local Abbreviation loop := (process_loop Metric InfluxLine fTagset_size fFieldset_size stat_t).
Local Abbreviation send := (SendData stat_t).

Lemma lines_of_app (a b : list Metric) : lines (a ++ b) = (lines a ++ lines b)%string.
Proof.
  induction a as [|m a IH]; [reflexivity|].
  rewrite <- app_comm_cons. cbn [lines_of].
  rewrite IH. symmetry. apply string_append_assoc.
Qed.

Lemma lines_of_last (g : list Metric) (met : Metric) :
  lines (g ++ [met]) = (lines g ++ (InfluxLine met ++ newline))%string.
Proof. rewrite lines_of_app. cbn [lines_of]. now rewrite string_append_nil_r. Qed.

Lemma lines_of_concat (groups : list (list Metric)) :
  lines (List.concat groups) = String.concat "" (map lines groups).
Proof.
  induction groups as [|g groups IH]; [reflexivity|].
  cbn [List.concat map]. rewrite lines_of_app, IH.
  destruct groups as [|g' groups]; cbn [map String.concat].
  - now rewrite string_append_nil_r.
  - reflexivity.
Qed.

Lemma size_lines_pos (g : list Metric) : g <> [] -> 0 < size (lines g).
Proof.
  destruct g as [|m g]; [congruence|]. intros _. cbn [lines_of].
  rewrite !size_append. pose proof (size_nonneg (InfluxLine m)).
  pose proof (size_nonneg (lines g)). change (size newline) with 1. lia.
Qed.

Lemma size_lines_removelast (g : list Metric) :
  size (lines (removelast g)) <= size (lines g).
Proof.
  destruct g as [|m g] using rev_ind; [cbn; lia|].
  rewrite removelast_last, lines_of_app, size_append.
  pose proof (size_nonneg (lines [m])). lia.
Qed.

Lemma send_calls_SendData net msg k :
  send_calls (send net msg k) = send_calls k ++ [msg].
Proof. unfold SendData. destruct (net _ msg); reflexivity. Qed.

(** The loop, started with the text of the metrics [g0] not yet sent. *)
Lemma process_loop_chunks net : forall (metvec g0 : list Metric) k msg' k',
  size (lines g0) <= kSendChunkSize ->
  loop net metvec (lines g0) k = (msg', k') ->
  exists groups g',
    g0 ++ metvec = List.concat groups ++ g'
    /\ send_calls k' = send_calls k ++ map lines groups
    /\ msg' = lines g'
    /\ size (lines g') <= kSendChunkSize
    /\ Forall (cut_at_limit Metric InfluxLine) groups
    /\ Forall (fun g => kSendChunkSize < size (lines g)) groups.
Proof.
  induction metvec as [|met rest IH]; intros g0 k msg' k' Hg0 H; cbn [process_loop] in H.
  - injection H as <- <-. exists [], g0. cbn [List.concat map app].
    rewrite !app_nil_r. repeat split; (assumption || constructor).
  - rewrite <- lines_of_last in H.
    destruct (Z.ltb_spec kSendChunkSize (size (lines (g0 ++ [met])))) as [Hbig|Hsmall].
    + change EmptyString with (lines []) in H.
      apply IH in H; [|cbn; unfold kSendChunkSize; lia].
      destruct H as (groups & g' & Hcat & Hcalls & Hmsg & Hsz & Hcut & Hbigs).
      exists ((g0 ++ [met]) :: groups), g'. cbn [List.concat map].
      repeat split; try assumption.
      * change ([] ++ rest) with rest in Hcat. rewrite Hcat, <- !app_assoc. reflexivity.
      * rewrite Hcalls, send_calls_SendData. cbn [count_metric send_calls].
        now rewrite <- app_assoc.
      * constructor; [|exact Hcut]. split.
        -- destruct g0; discriminate.
        -- now rewrite removelast_last.
      * constructor; assumption.
    + apply IH in H; [|exact Hsmall].
      destruct H as (groups & g' & Hcat & Hcalls & Hmsg & Hsz & Hcut & Hbigs).
      exists groups, g'. repeat split; try assumption.
      rewrite <- Hcat, <- app_assoc. reflexivity.
Qed.

(** X13: [ProcessMetricVec] hands every line to [SendData] exactly once and in
    order, in chunks of whole lines: the bodies of its [SendData] calls are
    the texts of consecutive non-empty runs of the metrics that together
    make up the whole vector, so joined they are all the lines; a chunk is
    sent as soon as it exceeds [kSendChunkSize] bytes, so every chunk but
    the last exceeds the limit, and does so only with its last line; no
    body is empty, and an empty vector sends nothing. *)
Theorem ProcessMetricVec_chunks (net : network) (metvec : list Metric) (k : sink) :
  exists groups : list (list Metric),
    List.concat groups = metvec
    /\ send_calls
         (ProcessMetricVec Metric InfluxLine fTagset_size fFieldset_size stat_t net metvec k)
       = send_calls k ++ map lines groups
    /\ String.concat "" (map lines groups) = lines metvec
    /\ Forall (cut_at_limit Metric InfluxLine) groups
    /\ Forall (fun g => kSendChunkSize < size (lines g)) (removelast groups)
    /\ Forall (fun body => 0 < size body) (map lines groups)
    /\ (metvec = [] -> groups = []).
Proof.
  unfold ProcessMetricVec.
  destruct (loop net metvec ""%string
              (count_points stat_t (Z.of_nat (List.length metvec)) k))
    as [msg' k'] eqn:E.
  change EmptyString with (lines []) in E.
  apply process_loop_chunks in E; [|cbn; unfold kSendChunkSize; lia].
  destruct E as (groups & g' & Hcat & Hcalls & -> & Hsz & Hcut & Hbigs).
  change ([] ++ metvec) with metvec in Hcat. cbn [count_points send_calls] in Hcalls.
  assert (Hpos : forall gs, Forall (cut_at_limit Metric InfluxLine) gs ->
            Forall (fun body => 0 < size body) (map lines gs)).
  { intros gs Hgs. apply Forall_map. eapply Forall_impl; [|exact Hgs].
    intros g [Hne _]. apply size_lines_pos, Hne. }
  destruct (Z.ltb_spec 0 (size (lines g'))) as [Hsome|Hnone].
  - assert (Hne : g' <> []) by (intros ->; cbn in Hsome; lia).
    assert (Hcut' : Forall (cut_at_limit Metric InfluxLine) (groups ++ [g'])).
    { apply Forall_app. split; [exact Hcut|]. constructor; [|constructor].
      split; [exact Hne|]. pose proof (size_lines_removelast g'). lia. }
    exists (groups ++ [g']). repeat split.
    + rewrite concat_app. cbn [List.concat]. rewrite app_nil_r. now symmetry.
    + rewrite send_calls_SendData, Hcalls, map_app, <- app_assoc. reflexivity.
    + rewrite <- lines_of_concat. rewrite concat_app. cbn [List.concat].
      rewrite app_nil_r. now rewrite <- Hcat.
    + exact Hcut'.
    + rewrite removelast_last. exact Hbigs.
    + apply Hpos, Hcut'.
    + intros ->. symmetry in Hcat. apply app_eq_nil in Hcat. tauto.
  - assert (Hnil : g' = []).
    { destruct g' as [|m g']; [reflexivity|].
      pose proof (size_lines_pos (m :: g')) as Hp. specialize (Hp ltac:(discriminate)). lia. }
    subst g'. rewrite app_nil_r in Hcat.
    exists groups. repeat split.
    + now symmetry.
    + exact Hcalls.
    + rewrite <- lines_of_concat. now rewrite <- Hcat.
    + exact Hcut.
    + apply Forall_removelast, Hbigs.
    + apply Hpos, Hcut.
    + intros ->. destruct groups as [|g gs]; [reflexivity|].
      inversion Hcut as [|? ? [Hg _] _]; subst.
      cbn [List.concat] in Hcat. symmetry in Hcat. apply app_eq_nil in Hcat. tauto.
Qed.

End Influx2Facts.

(** ** The endpoint of the sink *)

Lemma all_chars_app p a b :
  all_chars p (a ++ b) = all_chars p a && all_chars p b.
Proof.
  induction a as [|c a IH]; cbn [append all_chars]; [reflexivity|].
  now rewrite IH, andb_assoc.
Qed.

Lemma colon_is_dot : is_dot ":" = true.
Proof. reflexivity. Qed.

Lemma digit_is_no_colon c : is_digit c = true -> (c =? ":")%char = false.
Proof.
  intros H. destruct (Ascii.eqb_spec c ":") as [->|]; [discriminate H | reflexivity].
Qed.

Lemma match_token_sound s t :
  match_token s = Some t -> t = s /\ all_chars is_dot s = true.
Proof.
  unfold match_token. destruct (all_chars is_dot s); [|discriminate].
  intros H. injection H as <-. split; reflexivity.
Qed.

Lemma match_bucket_sound s : forall b t,
  match_bucket s = Some (b, t) ->
  s = (b ++ ":" ++ t)%string
  /\ all_chars is_dot b = true /\ all_chars no_colon b = true
  /\ all_chars is_dot t = true.
Proof.
  induction s as [|c rest IH]; intros b t H; cbn [match_bucket] in H; [discriminate|].
  destruct (Ascii.eqb_spec c ":") as [->|Hc].
  - destruct (match_token rest) as [t0|] eqn:Ht.
    + injection H as <- <-. apply match_token_sound in Ht. destruct Ht as [-> Hd].
      repeat split. exact Hd.
    + (* the rest holds a line terminator: no later split can match *)
      rewrite colon_is_dot in H.
      destruct (match_bucket rest) as [[b0 t0]|] eqn:Hb; [|discriminate].
      destruct (IH b0 t0 eq_refl) as (Hs & Hdb & _ & Hdt).
      unfold match_token in Ht. rewrite Hs in Ht.
      rewrite all_chars_app in Ht. cbn [append all_chars] in Ht.
      rewrite Hdb, Hdt, colon_is_dot in Ht. discriminate.
  - destruct (is_dot c) eqn:Hd; [|discriminate].
    destruct (match_bucket rest) as [[b0 t0]|] eqn:Hb; [|discriminate].
    injection H as <- <-. destruct (IH b0 t0 eq_refl) as (-> & Hdb & Hnb & Hdt).
    cbn [append all_chars]. rewrite Hd, Hdb, Hnb. unfold no_colon.
    apply Ascii.eqb_neq in Hc. rewrite Hc. repeat split. exact Hdt.
Qed.

Lemma match_port_sound s : forall p b t,
  match_port s = Some (p, b, t) ->
  s = (p ++ ":" ++ b ++ ":" ++ t)%string
  /\ all_chars is_digit p = true
  /\ all_chars is_dot b = true /\ all_chars no_colon b = true
  /\ all_chars is_dot t = true.
Proof.
  induction s as [|c rest IH]; intros p b t H; cbn [match_port] in H; [discriminate|].
  assert (Hext : is_digit c = true ->
            (if is_digit c
             then match match_port rest with
                  | Some (p0, b0, t0) => Some (String c p0, b0, t0)
                  | None => None
                  end
             else None) = Some (p, b, t) ->
            String c rest = (p ++ ":" ++ b ++ ":" ++ t)%string
            /\ all_chars is_digit p = true
            /\ all_chars is_dot b = true /\ all_chars no_colon b = true
            /\ all_chars is_dot t = true).
  { intros Hd H'. rewrite Hd in H'.
    destruct (match_port rest) as [[[p0 b0] t0]|] eqn:Hp; [|discriminate].
    injection H' as <- <- <-. destruct (IH p0 b0 t0 eq_refl) as (-> & Hdp & Hrest).
    cbn [append all_chars]. rewrite Hd, Hdp. split; [reflexivity|]. split; [reflexivity|].
    exact Hrest. }
  destruct (Ascii.eqb_spec c ":") as [->|Hc].
  - destruct (match_bucket rest) as [[b0 t0]|] eqn:Hb.
    + injection H as <- <- <-. apply match_bucket_sound in Hb.
      destruct Hb as (-> & Hrest). split; [reflexivity|]. split; [reflexivity|]. exact Hrest.
    + discriminate H.
  - destruct (is_digit c) eqn:Hd; [|discriminate]. apply Hext; [reflexivity | exact H].
Qed.

Lemma match_host_more_sound s : forall h p b t,
  match_host_more s = Some (h, p, b, t) ->
  s = (h ++ ":" ++ p ++ ":" ++ b ++ ":" ++ t)%string
  /\ all_chars is_dot h = true
  /\ all_chars is_digit p = true
  /\ all_chars is_dot b = true /\ all_chars no_colon b = true
  /\ all_chars is_dot t = true.
Proof.
  induction s as [|c rest IH]; intros h p b t H; cbn [match_host_more] in H; [discriminate|].
  destruct (if (c =? ":")%char then match_port rest else None) as [[[p0 b0] t0]|] eqn:Htry.
  - injection H as <- <- <- <-.
    destruct (Ascii.eqb_spec c ":") as [->|]; [|discriminate].
    apply match_port_sound in Htry. destruct Htry as (-> & Hrest).
    split; [reflexivity|]. split; [reflexivity|]. exact Hrest.
  - destruct (is_dot c) eqn:Hd; [|discriminate].
    destruct (match_host_more rest) as [[[[h0 p0] b0] t0]|] eqn:Hm; [|discriminate].
    injection H as <- <- <- <-.
    destruct (IH h0 p0 b0 t0 eq_refl) as (-> & Hdh & Hrest).
    cbn [append all_chars]. rewrite Hd, Hdh.
    split; [reflexivity|]. split; [reflexivity|]. exact Hrest.
Qed.

Lemma regex_search_path_sound path h p b t :
  regex_search_path path = Some (h, p, b, t) ->
  well_formed_path path h p b t /\ all_chars no_colon b = true.
Proof.
  unfold regex_search_path, well_formed_path. destruct path as [|c rest]; [discriminate|].
  destruct (is_dot c) eqn:Hd; [|discriminate].
  destruct (match_host_more rest) as [[[[h0 p0] b0] t0]|] eqn:Hm; [|discriminate].
  intros H. injection H as <- <- <- <-.
  apply match_host_more_sound in Hm.
  destruct Hm as (-> & Hdh & Hdp & Hdb & Hnb & Hdt).
  cbn [append all_chars]. rewrite Hd, Hdh.
  repeat split; try assumption. discriminate.
Qed.

Lemma constructed_endpoint_sound_aux env path e :
  MonitorSinkInflux2_ctor env path = sink_constructed e ->
  exists h p b t, well_formed_path path h p b t.
Proof.
  unfold MonitorSinkInflux2_ctor.
  destruct (regex_search_path path) as [[[[h p] b] t]|] eqn:Hm; [|discriminate].
  intros _. exists h, p, b, t. apply regex_search_path_sound in Hm. apply Hm.
Qed.

(** X14: a sink that was constructed has a usable endpoint: the path is the
    host, a port field of digits, a bucket field without colon and a token
    field, joined by colons; the host is not empty; the port is the field
    or "8086" when the field is empty, the bucket is the field or "cbm"
    when the field is empty, so neither is ever empty; and the token is the
    token field or, when that is empty, the value of CBM_INFLUX_TOKEN. *)
Theorem constructed_endpoint (getenv_token : option string) (path : string)
    (e : endpoint) :
  MonitorSinkInflux2_ctor getenv_token path = sink_constructed e ->
  exists port bucket token,
    well_formed_path path (fHost e) port bucket token
    /\ all_chars no_colon bucket = true
    /\ fPort e = (if String.eqb port "" then "8086" else port)%string
    /\ fBucket e = (if String.eqb bucket "" then "cbm" else bucket)%string
    /\ fPort e <> EmptyString /\ fBucket e <> EmptyString
    /\ (if String.eqb token "" then getenv_token = Some (fToken e)
        else fToken e = token).
Proof.
  unfold MonitorSinkInflux2_ctor.
  destruct (regex_search_path path) as [[[[h p] b] t]|] eqn:Hm; [|discriminate].
  apply regex_search_path_sound in Hm. destruct Hm as [Hwf Hnb].
  intros H. exists p, b, t.
  assert (He : fHost e = h
               /\ fPort e = (if size p =? 0 then "8086"%string else p)
               /\ fBucket e = (if size b =? 0 then "cbm"%string else b)
               /\ (if size t =? 0 then getenv_token = Some (fToken e) else fToken e = t)).
  { destruct (size t =? 0); [destruct getenv_token; [|discriminate]|];
      injection H as <-; repeat split. }
  destruct He as (-> & Hp & Hb & Ht).
  assert (Heqb : forall s, String.eqb s "" = (size s =? 0)).
  { intros s. destruct s; reflexivity. }
  rewrite !Heqb.
  split; [exact Hwf|]. split; [exact Hnb|]. split; [exact Hp|]. split; [exact Hb|].
  split; [|split; [|exact Ht]].
  - rewrite Hp. destruct (size p =? 0) eqn:E; [discriminate|].
    intros ->. discriminate E.
  - rewrite Hb. destruct (size b =? 0) eqn:E; [discriminate|].
    intros ->. discriminate E.
Qed.

Lemma constructed_endpoint_witness :
  exists port bucket token,
    well_formed_path "influx.example:::" "influx.example" port bucket token
    /\ all_chars no_colon bucket = true.
Proof.
  destruct (constructed_endpoint (Some "secret"%string) "influx.example:::"
              {| fHost := "influx.example"; fPort := "8086"; fBucket := "cbm";
                 fToken := "secret" |} eq_refl)
    as (port & bucket & token & Hwf & Hnb & _).
  exists port, bucket, token. split; assumption.
Defined.

Lemma match_bucket_complete b : forall t,
  all_chars is_dot b = true -> all_chars is_dot t = true ->
  exists r, match_bucket (b ++ ":" ++ t) = Some r.
Proof.
  induction b as [|c b IH]; intros t Hb Ht; cbn [append match_bucket].
  - cbn. unfold match_token. rewrite Ht. eexists. reflexivity.
  - cbn [all_chars] in Hb. apply andb_true_iff in Hb. destruct Hb as [Hc Hb].
    destruct (IH t Hb Ht) as [[b0 t0] Hr].
    destruct (if (c =? ":")%char then match_token (b ++ String ":" t) else None);
      [eexists; reflexivity|].
    rewrite Hc. cbn [append] in Hr. rewrite Hr. eexists. reflexivity.
Qed.

Lemma match_port_complete p : forall rest r,
  all_chars is_digit p = true -> match_bucket rest = Some r ->
  exists r', match_port (p ++ ":" ++ rest) = Some r'.
Proof.
  induction p as [|c p IH]; intros rest [b t] Hp Hr; cbn [append match_port].
  - cbn. rewrite Hr. eexists. reflexivity.
  - cbn [all_chars] in Hp. apply andb_true_iff in Hp. destruct Hp as [Hc Hp].
    destruct (IH rest (b, t) Hp Hr) as [[[p0 b0] t0] Hr'].
    rewrite (digit_is_no_colon c Hc), Hc. cbn [append] in Hr'. rewrite Hr'.
    eexists. reflexivity.
Qed.

Lemma match_host_more_complete h : forall rest r,
  all_chars is_dot h = true -> match_port rest = Some r ->
  exists r', match_host_more (h ++ ":" ++ rest) = Some r'.
Proof.
  induction h as [|c h IH]; intros rest [[p b] t] Hh Hr; cbn [append match_host_more].
  - cbn. rewrite Hr. eexists. reflexivity.
  - cbn [all_chars] in Hh. apply andb_true_iff in Hh. destruct Hh as [Hc Hh].
    destruct (IH rest (p, b, t) Hh Hr) as [[[[h0 p0] b0] t0] Hr'].
    destruct (if (c =? ":")%char then match_port (h ++ String ":" rest) else None)
      as [[[p1 b1] t1]|]; [eexists; reflexivity|].
    rewrite Hc. cbn [append] in Hr'. rewrite Hr'. eexists. reflexivity.
Qed.

Lemma regex_search_path_complete path h p b t :
  well_formed_path path h p b t -> exists r, regex_search_path path = Some r.
Proof.
  intros (-> & Hne & Hh & Hp & Hb & Ht).
  destruct h as [|c h]; [congruence|].
  cbn [all_chars] in Hh. apply andb_true_iff in Hh. destruct Hh as [Hc Hh].
  destruct (match_bucket_complete b t Hb Ht) as [rb Hrb].
  destruct (match_port_complete p _ rb Hp Hrb) as [rp Hrp].
  destruct (match_host_more_complete h _ rp Hh Hrp) as [[[[h0 p0] b0] t0] Hrh].
  cbn [append regex_search_path]. rewrite Hc.
  cbn [append] in Hrh. rewrite Hrh. eexists. reflexivity.
Qed.

Lemma colons_nonneg s : 0 <= colons s.
Proof. induction s as [|c s IH]; cbn [colons]; [lia|]. destruct (c =? ":")%char; lia. Qed.

Lemma colons_app a b : colons (a ++ b) = colons a + colons b.
Proof. induction a as [|c a IH]; cbn [append colons]; [lia|]. rewrite IH. lia. Qed.

(** X15: which paths the constructor accepts: with a token at hand (in the path
    or in CBM_INFLUX_TOKEN) a sink is constructed exactly for the paths of
    the form host:port:bucket:token with a non-empty host, a port of
    digits only (possibly none) and no line terminator anywhere; every
    other path, in particular every path with fewer than three colons,
    throws the runtime error that quotes the path, whatever the
    environment. *)
Theorem accepted_paths (token_env : string) (path : string) :
  ((exists e, MonitorSinkInflux2_ctor (Some token_env) path = sink_constructed e)
   <-> (exists h p b t, well_formed_path path h p b t))
  /\ ((~ exists h p b t, well_formed_path path h p b t) ->
      forall env,
        MonitorSinkInflux2_ctor env path
        = runtime_error
            ("MonitorSinkInflux2::ctor: path not host:[port]:[bucket]:[token] '"
               ++ path ++ "'"))
  /\ (colons path < 3 -> ~ exists h p b t, well_formed_path path h p b t).
Proof.
  split; [split|split].
  - intros [e He]. apply constructed_endpoint_sound_aux in He. exact He.
  - intros (h & p & b & t & Hwf).
    destruct (regex_search_path_complete path h p b t Hwf) as [[[[h0 p0] b0] t0] Hr].
    unfold MonitorSinkInflux2_ctor. rewrite Hr.
    destruct (size t0 =? 0); eexists; reflexivity.
  - intros Hno env. unfold MonitorSinkInflux2_ctor.
    destruct (regex_search_path path) as [[[[h p] b] t]|] eqn:Hr; [|reflexivity].
    exfalso. apply Hno. exists h, p, b, t.
    apply regex_search_path_sound in Hr. apply Hr.
  - intros Hlt (h & p & b & t & -> & _).
    rewrite !colons_app in Hlt. cbn [colons] in Hlt.
    change ((":" =? ":")%char) with true in Hlt.
    pose proof (colons_nonneg h). pose proof (colons_nonneg p).
    pose proof (colons_nonneg b). pose proof (colons_nonneg t). cbn [append colons] in Hlt.
    lia.
Qed.
